(** * sqlbindarray: named-parameter substitution in SQL text

A shallow embedding of the three modules of the package:

- [encode.py]       ([to_sql]),
- [lexer.py]        ([Token], [_GroupSpec], [Lexer], [tokens], [tokenize]),
- [sqlbindarray.py] ([_token_patterns], [_handle_token], [replace]),

together with the part of Python's [re] engine that the lexer relies on.

Modelling choices:

- a Python [str] is a [string] whose characters are code points below 256;
  [Mapping[str, Any]] is a [gmap string value];
- a regular expression is a term of [Re.regex], which has the constructs
  that occur in [_token_patterns]; [Re.rmatch] is a backtracking matcher
  with the priorities of [re]: the left alternative first, greedy repeats,
  the leftmost match in [search];
- a generator is the [trace] of what it yields and how it ends; the
  [while] loop of [Lexer.tokens] takes one unit of fuel per round, and a
  trace that ends in [Running] is a loop that has not ended yet;
- a call [Returns], [Raises] an exception, or [Diverges];
- two limits of the interpreter are modelled, at the values it starts
  with: [str] refuses an [int] of more than 4300 digits, and a call for
  which the stack has no room raises [RecursionError]. *)

From Stdlib Require Import String Ascii List ZArith NArith Lia Bool DecimalString.
From stdpp Require Import gmap strings.
Import ListNotations.

Local Open Scope nat_scope.

(** ** Python strings *)

Module Str.

(** [text[a:b]] for [a <= b]. *)
Definition slice (s : string) (a b : nat) : string := substring a (b - a) s.

(** [text[a:]] *)
Fixpoint skip (n : nat) (s : string) : string :=
  match n, s with
  | S n', String _ s' => skip n' s'
  | _, _ => s
  end.

(** [text[:n]] *)
Fixpoint first (n : nat) (s : string) : string :=
  match n, s with
  | S n', String c s' => String c (first n' s')
  | _, _ => EmptyString
  end.

(** [''.join(parts)] *)
Fixpoint join_empty (parts : list string) : string :=
  match parts with
  | [] => EmptyString
  | p :: ps => p +:+ join_empty ps
  end.

(** [sep.join(parts)] *)
Fixpoint join (sep : string) (parts : list string) : string :=
  match parts with
  | [] => EmptyString
  | [p] => p
  | p :: ps => p +:+ sep +:+ join sep ps
  end.

(** [s.replace(old, new)] when [old] is a single character. *)
Fixpoint replace_char (old : ascii) (new : string) (s : string) : string :=
  match s with
  | EmptyString => EmptyString
  | String c s' =>
      if Ascii.eqb c old then new +:+ replace_char old new s'
      else String c (replace_char old new s')
  end.

(** [str(n)] for an [int]. *)
Definition of_Z (z : Z) : string := NilZero.string_of_int (Z.to_int z).

(** [str(n)] for the result of [len]. *)
Definition of_nat (n : nat) : string := of_Z (Z.of_nat n).

End Str.

(** ** The regular expressions of [re] that the package uses *)

Module Re.

(** Members of a bracketed class; [\w] and [\s] are one-member classes. *)
Inductive class_item : Type :=
| CChar (c : ascii)
| CWord
| CSpace.

Inductive regex : Type :=
| Empty                                        (* the empty pattern *)
| Lit (c : ascii)                              (* a literal character *)
| Class (negated : bool) (items : list class_item)  (* [..], [^..], \w, \s *)
| Seq (r1 r2 : regex)                          (* r1 r2 *)
| Alt (r1 r2 : regex)                          (* r1|r2 *)
| Star (r : regex)                             (* r*  (greedy) *)
| Plus (r : regex)                             (* r+  (greedy) *)
| Group (r : regex)                            (* (r), capturing *)
| Eol.                                         (* $ *)

Definition code (c : ascii) : N := N_of_ascii c.

Definition between (lo hi : N) (c : ascii) : bool :=
  (lo <=? code c)%N && (code c <=? hi)%N.

(** [\w] on [str] patterns: alphanumeric code points and the underscore. *)
Definition is_word (c : ascii) : bool :=
  between 48 57 c        (* 0-9 *)
  || between 65 90 c     (* A-Z *)
  || between 97 122 c    (* a-z *)
  || (code c =? 95)%N    (* _ *)
  || (code c =? 170)%N || (code c =? 178)%N || (code c =? 179)%N
  || (code c =? 181)%N || (code c =? 185)%N || (code c =? 186)%N
  || between 188 190 c
  || between 192 214 c || between 216 246 c || between 248 255 c.

(** [\s] on [str] patterns. *)
Definition is_space (c : ascii) : bool :=
  between 9 13 c || between 28 32 c
  || (code c =? 133)%N || (code c =? 160)%N.

Definition item_matches (c : ascii) (i : class_item) : bool :=
  match i with
  | CChar c' => Ascii.eqb c c'
  | CWord => is_word c
  | CSpace => is_space c
  end.

Definition class_matches (negated : bool) (items : list class_item)
    (c : ascii) : bool :=
  xorb negated (existsb (item_matches c) items).

(** [re.compile(pattern).groups] *)
Fixpoint ngroups (r : regex) : nat :=
  match r with
  | Empty | Lit _ | Class _ _ | Eol => 0
  | Seq r1 r2 | Alt r1 r2 => ngroups r1 + ngroups r2
  | Star r1 | Plus r1 => ngroups r1
  | Group r1 => S (ngroups r1)
  end.

(** [match.groups()]: one entry per group, [None] where the group did not
    take part in the match. *)
Abbreviation captures := (list (option string)) (only parsing).

(** What the matcher hands to the rest of the pattern: the unread input
    and the groups so far. *)
Definition cont : Type := string -> captures -> option (string * captures).

(** A greedy repeat.  Another round is tried first and the rest of the
    pattern second; a round that read nothing is followed by the rest of
    the pattern, not by another round. *)
Fixpoint repeat_loop (body : string -> captures -> cont -> option (string * captures))
    (n : nat) (s : string) (c : captures) (k : cont)
    : option (string * captures) :=
  match n with
  | 0 => k s c
  | S n' =>
      match body s c (fun s' c' =>
              if String.length s' <? String.length s
              then repeat_loop body n' s' c' k
              else k s' c') with
      | Some r => Some r
      | None => k s c
      end
  end.

(** Backtracking match of [r] at the head of [s]; [g] is the index, in
    [match.groups()], of the first group of [r]. *)
Fixpoint rmatch (r : regex) (g : nat) (s : string) (c : captures) (k : cont)
    {struct r} : option (string * captures) :=
  match r with
  | Empty => k s c
  | Lit a =>
      match s with
      | String b s' => if Ascii.eqb a b then k s' c else None
      | EmptyString => None
      end
  | Class negated items =>
      match s with
      | String b s' => if class_matches negated items b then k s' c else None
      | EmptyString => None
      end
  | Seq r1 r2 =>
      rmatch r1 g s c (fun s' c' => rmatch r2 (g + ngroups r1) s' c' k)
  | Alt r1 r2 =>
      match rmatch r1 g s c k with
      | Some res => Some res
      | None => rmatch r2 (g + ngroups r1) s c k
      end
  | Star r1 => repeat_loop (rmatch r1 g) (S (String.length s)) s c k
  | Plus r1 =>
      rmatch r1 g s c (fun s' c' =>
        repeat_loop (rmatch r1 g) (S (String.length s')) s' c' k)
  | Group r1 =>
      rmatch r1 (S g) s c (fun s' c' =>
        k s' (<[g := Some (Str.first (String.length s - String.length s') s)]> c'))
  | Eol =>
      match s with
      | EmptyString => k s c
      | String "010"%char EmptyString => k s c
      | _ => None
      end
  end.

(** Whether [r] can match without reading a character. *)
Fixpoint nullable (r : regex) : bool :=
  match r with
  | Empty | Eol | Star _ => true
  | Lit _ | Class _ _ => false
  | Seq r1 r2 => nullable r1 && nullable r2
  | Alt r1 r2 => nullable r1 || nullable r2
  | Plus r1 | Group r1 => nullable r1
  end.

(** A match object: [start()], [end()] and [groups()]. *)
Record Match : Type := mkMatch {
  m_start : nat;
  m_end : nat;
  m_groups : captures
}.

(** Leftmost match: the first position, from [pos] on, where [r] matches. *)
Fixpoint search_from (r : regex) (s : string) (pos : nat) : option Match :=
  match rmatch r 0 s (replicate (ngroups r) None) (fun s' c' => Some (s', c')) with
  | Some (s', c') =>
      Some (mkMatch pos (pos + (String.length s - String.length s')) c')
  | None =>
      match s with
      | String _ s1 => search_from r s1 (S pos)
      | EmptyString => None
      end
  end.

(** [regex.search(text, pos, endpos)] *)
Definition search (r : regex) (text : string) (pos endpos : nat) : option Match :=
  search_from r (Str.skip pos (Str.first endpos text)) pos.

(** A literal word, character by character. *)
Fixpoint lits (s : string) : regex :=
  match s with
  | EmptyString => Empty
  | String c EmptyString => Lit c
  | String c s' => Seq (Lit c) (lits s')
  end.

End Re.

(** ** Exceptions and results *)

Inductive exn : Type :=
| AssertionError          (* a failed [assert] *)
| IndexError              (* list or tuple index out of range *)
| ValueError              (* [name, = groups] on a list that has not one element;
                             [str] of an [int] of too many digits *)
| RecursionError          (* too many calls inside one another *)
| StopIteration           (* [next] on an exhausted generator expression *)
| UnsupportedValueType    (* [to_sql]: value of unsupported type *)
| LengthNotSupported      (* [len] of an object that has none: TypeError *)
| MalformedPlaceholder.   (* [_handle_token]: unexpected token after a prefix *)

(** What a call does: return, raise, or still run when the fuel is spent. *)
Inductive outcome (A : Type) : Type :=
| Returns (a : A)
| Raises (e : exn)
| Diverges.
Arguments Returns {A} a.
Arguments Raises {A} e.
Arguments Diverges {A}.

(** ** lexer.py *)

Module Lexer.

Import Re.

Record Token : Type := mkToken {
  kind : option string;
  text : string;
  groups : list (option string);
  input_range : nat * nat
}.

Record _GroupSpec : Type := mkGroupSpec {
  group_index : nat;
  subgroup_range : nat * nat;
  token_kind : string
}.

Definition _token_pattern_to_group_spec (spec_list : list _GroupSpec)
    (named_pattern : string * regex) : list _GroupSpec :=
  let index :=
    match last spec_list with
    | None => 0
    | Some sp => snd (subgroup_range sp)
    end in
  let '(name, pattern) := named_pattern in
  let num_subgroups := ngroups pattern in
  spec_list ++ [mkGroupSpec index (index + 1, index + 1 + num_subgroups) name].

Definition _group_specs (token_patterns : list (string * regex))
    : list _GroupSpec :=
  fold_left _token_pattern_to_group_spec token_patterns [].

(** ['|'.join(f'({pattern})' for pattern in patterns)] *)
Fixpoint _combine_patterns (patterns : list regex) : regex :=
  match patterns with
  | [] => Empty
  | [p] => Group p
  | p :: ps => Alt (Group p) (_combine_patterns ps)
  end.

Record Lexer : Type := mkLexer {
  _regex : regex;
  _specs : list _GroupSpec
}.

(** [Lexer.__init__] *)
Definition init (token_patterns : list (string * regex)) : Lexer :=
  mkLexer (_combine_patterns (map snd token_patterns))
          (_group_specs token_patterns).

(** The tokens a generator yields, in order, and how it ends. *)
Inductive trace : Type :=
| Done
| Yield (t : Token) (rest : trace)
| Raise (e : exn)
| Running.

(** [next(spec for spec in specs if groups[spec.group_index] is not None)] *)
Fixpoint matched_spec (specs : list _GroupSpec) (gs : captures)
    : outcome (_GroupSpec * string) :=
  match specs with
  | [] => Raises StopIteration
  | spec :: specs' =>
      match gs !! group_index spec with
      | None => Raises IndexError
      | Some None => matched_spec specs' gs
      | Some (Some t) => Returns (spec, t)
      end
  end.

(** [groups[a:b]] on the tuple of groups *)
Definition subgroups (gs : captures) (range : nat * nat) : captures :=
  take (snd range - fst range) (drop (fst range) gs).

(** The [while] loop of [Lexer.tokens]; one unit of fuel per round. *)
Fixpoint tokens_loop (fuel : nat) (self : Lexer) (text : string)
    (index end_ : nat) : trace :=
  if index =? end_ then Done
  else if negb (index <? end_) then Raise AssertionError
  else
    match fuel with
    | 0 => Running
    | S fuel' =>
        match search (_regex self) text index end_ with
        | None =>
            Yield (mkToken None (Str.slice text index end_) [] (index, end_))
                  (tokens_loop fuel' self text end_ end_)
        | Some m =>
            let start := m_start m in
            let unmatched (rest : trace) : trace :=
              if negb (start =? index)
              then Yield (mkToken None (Str.slice text index start) []
                                  (index, start)) rest
              else rest in
            unmatched
              match matched_spec (_specs self) (m_groups m) with
              | Returns (spec, t) =>
                  Yield (mkToken (Some (token_kind spec)) t
                                 (subgroups (m_groups m) (subgroup_range spec))
                                 (start, m_end m))
                        (tokens_loop fuel' self text (m_end m) end_)
              | Raises e => Raise e
              | Diverges => Running
              end
        end
    end.

(** [Lexer.tokens] *)
Definition tokens (fuel : nat) (self : Lexer) (text : string) : trace :=
  tokens_loop fuel self text 0 (String.length text).

(** [tokenize] *)
Definition tokenize (fuel : nat) (text : string)
    (token_patterns : list (string * regex)) : trace :=
  tokens fuel (init token_patterns) text.

Fixpoint yielded (tr : trace) : list Token :=
  match tr with
  | Yield t rest => t :: yielded rest
  | _ => []
  end.

Fixpoint finished (tr : trace) : bool :=
  match tr with
  | Done => true
  | Yield _ rest => finished rest
  | _ => false
  end.

End Lexer.

(** ** encode.py *)

Module Encode.

(** The Python values a binding can hold.  [VReal] is an instance of
    [numbers.Real] other than [int], carried with the text [str] gives
    for it; [VOther] is an object of any other type, carried with what
    [len] gives for it, if anything, and with the exception that
    formatting it into a message raises, if any. *)
#[local] Unset Elimination Schemes.
Inductive value : Type :=
| VStr (s : string)
| VInt (n : Z)
| VReal (repr : string)
| VList (l : list value)
| VNone
| VOther (len : option nat) (shown : option exn).
#[local] Set Elimination Schemes.

(** [sys.get_int_max_str_digits()] as the interpreter starts with it. *)
Definition int_max_str_digits : nat := 4300.

(** [str(n)] for an [int]: the interpreter refuses to write out more than
    [int_max_str_digits] digits, the sign not counted. *)
Definition str_int (n : Z) : outcome string :=
  if int_max_str_digits <? String.length (Str.of_Z (Z.abs n))
  then Raises ValueError
  else Returns (Str.of_Z n).

(** The generator expression [(f(element) for element in value)] as [join]
    consumes it: in order, up to the first element on which [f] raises. *)
Fixpoint each (f : value -> outcome string) (l : list value)
    : outcome (list string) :=
  match l with
  | [] => Returns []
  | element :: l' =>
      match f element with
      | Returns s =>
          match each f l' with
          | Returns ss => Returns (s :: ss)
          | Raises e => Raises e
          | Diverges => Diverges
          end
      | Raises e => Raises e
      | Diverges => Diverges
      end
  end.

(** [to_sql] when the interpreter's stack has room for [depth] more calls
    of [to_sql] inside one another: a call for which there is no room
    raises, and the elements of a list are encoded one call deeper.  The
    [else] branch formats the value into the message of its exception, and
    raises what the formatting raises when that fails. *)
Fixpoint to_sql_at (depth : nat) (v : value) : outcome string :=
  match depth with
  | 0 => Raises RecursionError
  | S depth' =>
      match v with
      | VStr s => Returns ("'" +:+ Str.replace_char "'" "''" s +:+ "'")
      | VInt n => str_int n
      | VReal repr => Returns repr
      | VList l =>
          match each (to_sql_at depth') l with
          | Returns parts => Returns ("(" +:+ Str.join ", " parts +:+ ")")
          | Raises e => Raises e
          | Diverges => Diverges
          end
      | VNone => Returns "null"
      | VOther _ None => Raises UnsupportedValueType
      | VOther _ (Some e) => Raises e
      end
  end.

(** The levels that the interpreter's stack has room for when [to_sql] is
    called: with the recursion limit of 1000 that the interpreter starts
    with and the three entries that a level takes ([to_sql], [join] and
    the generator expression), 333.  What the stack holds already at the
    call is left out. *)
Definition stack_depth : nat := 333.

Definition to_sql (v : value) : outcome string := to_sql_at stack_depth v.

(** [len(value)] *)
Definition len (v : value) : outcome nat :=
  match v with
  | VStr s => Returns (String.length s)
  | VList l => Returns (length l)
  | VOther (Some n) _ => Returns n
  | _ => Raises LengthNotSupported
  end.

End Encode.

(** ** sqlbindarray.py *)

Module Sqlbindarray.

Import Re Lexer Encode.

(** [r1 r2 ... rn] *)
Fixpoint cat (rs : list regex) : regex :=
  match rs with
  | [] => Empty
  | [r] => r
  | r :: rs' => Seq r (cat rs')
  end.

Definition quote : ascii := "039"%char.      (* ' *)
Definition dquote : ascii := "034"%char.     (* the double quote *)
Definition newline : ascii := "010"%char.    (* \n *)

Definition _token_patterns : list (string * regex) :=
  [ (* '[^']*' *)
    ("quoted string",
     cat [Lit quote; Star (Class true [CChar quote]); Lit quote]);
    (* Q ( [^Q]* ) Q, where Q is the double quote *)
    ("quoted identifier",
     cat [Lit dquote; Group (Star (Class true [CChar dquote])); Lit dquote]);
    (* --[^\n]*(?:\n|$) *)
    ("line comment",
     cat [lits "--"; Star (Class true [CChar newline]); Alt (Lit newline) Eol]);
    (* /\*+(?:[^*]|\*[^/])*\*+/ *)
    ("block comment",
     cat [Lit "/"; Plus (Lit "*");
          Star (Alt (Class true [CChar "*"%char])
                    (Seq (Lit "*") (Class true [CChar "/"%char])));
          Plus (Lit "*"); Lit "/"]);
    (* [:@] *)
    ("named parameter prefix",
     Class false [CChar ":"%char; CChar "@"%char]);
    (* #:|#@ *)
    ("named parameter length prefix",
     Alt (lits "#:") (lits "#@"));
    (* %\((\w+)\)s *)
    ("python named parameter",
     cat [lits "%("; Group (Plus (Class false [CWord])); lits ")s"]);
    (* #%\((\w+)\)s *)
    ("python named parameter length",
     cat [lits "#%("; Group (Plus (Class false [CWord])); lits ")s"]);
    (* \w+ *)
    ("word", Plus (Class false [CWord]));
    (* \s+ *)
    ("whitespace", Plus (Class false [CSpace])) ].

(** The lexer that [_tokens] builds on first use and keeps. *)
Definition _lexer_singleton : Lexer := Lexer.init _token_patterns.

(** One round of the lexer's loop reads at least one character of the
    statement, so one unit of fuel per character is enough. *)
Definition _tokens (text : string) : trace :=
  Lexer.tokens (String.length text) _lexer_singleton text.

Inductive _ParserState : Type :=
| CHILLIN
| IN_PARAMETER
| IN_PARAMETER_LENGTH.

Inductive _OutputOperation : Type :=
| PUSH
| EMIT
| FLUSH.

(** [kind == name] for the optional kind of a token *)
Definition kind_is (k : option string) (name : string) : bool :=
  match k with
  | Some k' => String.eqb k' name
  | None => false
  end.

(** [name, = groups] followed by [assert name is not None] *)
Definition only_group (gs : list (option string)) : outcome string :=
  match gs with
  | [Some name] => Returns name
  | [None] => Raises AssertionError
  | _ => Raises ValueError
  end.

Definition transition : Type := _OutputOperation * string * _ParserState.

(** [str(len(bindings[name]))] *)
Definition length_text (v : value) : outcome string :=
  match len v with
  | Returns n => Returns (Str.of_nat n)
  | Raises e => Raises e
  | Diverges => Diverges
  end.

Definition with_text (op : _OutputOperation) (state : _ParserState)
    (part : outcome string) : outcome transition :=
  match part with
  | Returns s => Returns (op, s, state)
  | Raises e => Raises e
  | Diverges => Diverges
  end.

Definition _handle_token (token : Token) (state : _ParserState)
    (bindings : gmap string value) : outcome transition :=
  let kind := kind token in
  let text := text token in
  let groups := groups token in
  if kind_is kind "line comment" || kind_is kind "block comment"
     || kind_is kind "whitespace"
  then Returns (PUSH, text, state)
  else
    match state with
    | CHILLIN =>
        if kind_is kind "python named parameter" then
          match only_group groups with
          | Returns name =>
              match bindings !! name with
              | Some v => with_text FLUSH state (to_sql v)
              | None => Returns (FLUSH, text, state)
              end
          | Raises e => Raises e
          | Diverges => Diverges
          end
        else if kind_is kind "python named parameter length" then
          match only_group groups with
          | Returns name =>
              match bindings !! name with
              | Some v => with_text FLUSH state (length_text v)
              | None => Returns (FLUSH, text, state)
              end
          | Raises e => Raises e
          | Diverges => Diverges
          end
        else if kind_is kind "named parameter prefix" then
          Returns (PUSH, text, IN_PARAMETER)
        else if kind_is kind "named parameter length prefix" then
          Returns (PUSH, text, IN_PARAMETER_LENGTH)
        else Returns (FLUSH, text, state)
    | _ =>
        let name :=
          if kind_is kind "word" then Returns text
          else if kind_is kind "quoted identifier" then only_group groups
          else Raises MalformedPlaceholder in
        match name with
        | Returns name =>
            match bindings !! name with
            | None => Returns (FLUSH, text, CHILLIN)
            | Some v =>
                match state with
                | IN_PARAMETER => with_text EMIT CHILLIN (to_sql v)
                | _ => with_text EMIT CHILLIN (length_text v)
                end
            end
        | Raises e => Raises e
        | Diverges => Diverges
        end
    end.

(** The [for] loop of [replace] over the tokens of the generator, and the
    two statements after it. *)
Fixpoint replace_loop (tr : trace) (state : _ParserState)
    (output_parts enqueued_parts : list string)
    (bindings : gmap string value) : outcome string :=
  match tr with
  | Done => Returns (Str.join_empty (output_parts ++ enqueued_parts))
  | Raise e => Raises e
  | Running => Diverges
  | Yield token rest =>
      match _handle_token token state bindings with
      | Returns (op, part, state') =>
          match op with
          | PUSH =>
              replace_loop rest state' output_parts (enqueued_parts ++ [part])
                           bindings
          | EMIT =>
              replace_loop rest state' (output_parts ++ [part]) [] bindings
          | FLUSH =>
              replace_loop rest state'
                           ((output_parts ++ enqueued_parts) ++ [part]) []
                           bindings
          end
      | Raises e => Raises e
      | Diverges => Diverges
      end
  end.

Definition replace (sql_statement : string) (bindings : gmap string value)
    : outcome string :=
  replace_loop (_tokens sql_statement) CHILLIN [] [] bindings.

End Sqlbindarray.


(** ** Vocabulary of the statements *)

Module Props.

Import Re Lexer Encode Sqlbindarray.

(** The group specs of [token_patterns] when the first top-level group has
    index [index]: what the [reduce] of [_group_specs] builds. *)
Fixpoint specs_from (index : nat) (token_patterns : list (string * regex))
    : list _GroupSpec :=
  match token_patterns with
  | [] => []
  | (name, pattern) :: rest =>
      mkGroupSpec index (index + 1, index + 1 + ngroups pattern) name
      :: specs_from (index + 1 + ngroups pattern) rest
  end.

(** No sub-pattern can match the empty string, and there is one at least. *)
Definition never_empty (token_patterns : list (string * regex)) : bool :=
  negb (Nat.eqb (length token_patterns) 0)
  && forallb (fun np => negb (nullable (snd np))) token_patterns.

(** The tokens tile [text] from offset [i] on: each starts where the one
    before stopped, is not empty, carries the text of its range, and the
    last one stops at the end of [text]. *)
Fixpoint tiles (text : string) (i : nat) (toks : list Token) : bool :=
  match toks with
  | [] => i =? String.length text
  | t :: ts =>
      (fst (input_range t) =? i)
      && (i <? snd (input_range t))
      && (snd (input_range t) <=? String.length text)
      && String.eqb (Lexer.text t) (Str.slice text i (snd (input_range t)))
      && tiles text (snd (input_range t)) ts
  end.

(** The text of the tokens, joined. *)
Definition joined (toks : list Token) : string :=
  Str.join_empty (map Lexer.text toks).

(** A generator that yields [toks] and then goes on as [rest]. *)
Fixpoint yields (toks : list Token) (rest : trace) : trace :=
  match toks with
  | [] => rest
  | t :: ts => Yield t (yields ts rest)
  end.

(** The state of [replace] between two tokens. *)
Definition parser : Type := _ParserState * list string * list string.

(** The [for] loop of [replace] over the tokens [toks] alone. *)
Fixpoint run (toks : list Token) (state : _ParserState)
    (output_parts enqueued_parts : list string)
    (bindings : gmap string value) : outcome parser :=
  match toks with
  | [] => Returns (state, output_parts, enqueued_parts)
  | token :: rest =>
      match _handle_token token state bindings with
      | Returns (op, part, state') =>
          match op with
          | PUSH =>
              run rest state' output_parts (enqueued_parts ++ [part]) bindings
          | EMIT => run rest state' (output_parts ++ [part]) [] bindings
          | FLUSH =>
              run rest state' ((output_parts ++ enqueued_parts) ++ [part]) []
                  bindings
          end
      | Raises e => Raises e
      | Diverges => Diverges
      end
  end.

Definition is_filler (t : Token) : bool :=
  kind_is (kind t) "line comment" || kind_is (kind t) "block comment"
  || kind_is (kind t) "whitespace".

Definition is_prefix (t : Token) : bool :=
  kind_is (kind t) "named parameter prefix"
  || kind_is (kind t) "named parameter length prefix".

Definition is_python (t : Token) : bool :=
  kind_is (kind t) "python named parameter"
  || kind_is (kind t) "python named parameter length".


(** The parameter name a token gives after a prefix. *)
Definition name_of (t : Token) : option string :=
  if kind_is (kind t) "word" then Some (Lexer.text t)
  else if kind_is (kind t) "quoted identifier" then
    match groups t with
    | [Some name] => Some name
    | _ => None
    end
  else None.

(** The name inside a python-style placeholder. *)
Definition python_name_of (t : Token) : option string :=
  if is_python t then
    match groups t with
    | [Some name] => Some name
    | _ => None
    end
  else None.


(** Every single quote doubled, every other character as it is. *)
Fixpoint doubled (s : string) : string :=
  match s with
  | EmptyString => EmptyString
  | String c s' =>
      if Ascii.eqb c quote then String quote (String quote (doubled s'))
      else String c (doubled s')
  end.

(** Reading the inside of a quoted literal up to its closing quote: a
    doubled quote stands for one quote. *)
Fixpoint collapse (s : string) : option string :=
  match s with
  | EmptyString => None
  | String c s' =>
      if Ascii.eqb c quote then
        match s' with
        | EmptyString => Some EmptyString
        | String c' s'' =>
            if Ascii.eqb c' quote then
              match collapse s'' with
              | Some t => Some (String quote t)
              | None => None
              end
            else None
        end
      else
        match collapse s' with
        | Some t => Some (String c t)
        | None => None
        end
  end.

(** Reading a quoted literal back: strip the outer quotes, collapse the
    doubled ones. *)
Definition decode (s : string) : option string :=
  match s with
  | String c s' => if Ascii.eqb c quote then collapse s' else None
  | EmptyString => None
  end.

(** What the rest of the pattern is given when [r] has matched: some
    unread tail [s'] of the input [s] and groups [c'] that differ from [c]
    inside the group indices of [r] only. *)
Definition reaches (g n : nat) (nonempty : bool) (s : string) (c : captures)
    (k : cont) (res : string * captures) : Prop :=
  exists (p s' : string) (c' : captures),
    s = p +:+ s'
    /\ k s' c' = Some res
    /\ (nonempty = true -> p <> "")
    /\ length c' = length c
    /\ (forall i, i < g \/ g + n <= i -> c' !! i = c !! i).

(** The index the next top-level group gets in [_token_pattern_to_group_spec]. *)
Definition next_index (spec_list : list _GroupSpec) : nat :=
  match last spec_list with
  | None => 0
  | Some sp => snd (subgroup_range sp)
  end.

Definition nonnull (np : string * regex) : bool := negb (nullable (snd np)).

(** A sub-pattern that matches the empty string: [\s*]. *)
Definition spaces : list (string * regex) :=
  [("spaces", Star (Class false [CSpace]))].

(** Another one: [a*]. *)
Definition some_a : list (string * regex) :=
  [("as", Star (Lit "a"))].

Definition empty_token (name : string) : Token :=
  mkToken (Some name) "" [] (0, 0).

(** A token that is no part of any placeholder syntax. *)
Definition plain (t : Token) : bool := negb (is_prefix t || is_python t).

(** The name that follows a prefix: fillers, then a word or a quoted
    identifier, and nothing after it. *)
Fixpoint name_after_prefix (more : list Token) : option string :=
  match more with
  | [] => None
  | [n] => name_of n
  | f :: more' => if is_filler f then name_after_prefix more' else None
  end.

(** The name of a placeholder as it is written: one python-style token,
    or a prefix, fillers and a name. *)
Definition placeholder_name (ph : list Token) : option string :=
  match ph with
  | [] => None
  | p :: more =>
      if is_python p then
        match more with
        | [] => python_name_of p
        | _ => None
        end
      else if is_prefix p then name_after_prefix more
      else None
  end.


(** No single quote in [s]. *)
Fixpoint no_quote (s : string) : bool :=
  match s with
  | EmptyString => true
  | String c s' => negb (Ascii.eqb c quote) && no_quote s'
  end.

(** [s] between single quotes. *)
Definition quoted (s : string) : string :=
  String quote (s +:+ String quote EmptyString).








End Props.

(** ** Vocabulary of the further properties *)

Module Shapes.

Import Re Lexer Encode Sqlbindarray Props.

(** Group [i] of [r], counted from 0 among the groups of [r], takes part in
    every match of [r]. *)
Fixpoint always_set (r : regex) (i : nat) : bool :=
  match r with
  | Group r1 =>
      match i with
      | 0 => true
      | S i' => always_set r1 i'
      end
  | Seq r1 r2 =>
      if i <? ngroups r1 then always_set r1 i
      else always_set r2 (i - ngroups r1)
  | Plus r1 => always_set r1 i
  | _ => false
  end.

(** An entry of [match.groups()] that is not [None]. *)
Definition is_set (o : option (option string)) : bool :=
  match o with
  | Some (Some _) => true
  | _ => false
  end.

(** The groups of a token of the sub-pattern [p]: one entry per group of
    [p], and no [None] where the group always takes part. *)
Definition groups_fit (p : regex) (gs : list (option string)) : bool :=
  (length gs =? ngroups p)
  && forallb (fun i => implb (always_set p i) (is_set (gs !! i)))
             (seq 0 (ngroups p)).

(** A token as [tokens] makes them: no kind and no groups, or the kind of
    a sub-pattern and groups that fit it. *)
Definition well_formed (token_patterns : list (string * regex)) (t : Token)
    : bool :=
  match kind t with
  | None =>
      match groups t with
      | [] => true
      | _ => false
      end
  | Some name =>
      existsb (fun np => String.eqb (fst np) name && groups_fit (snd np) (groups t))
              token_patterns
  end.

Definition no_match (t : Token) : bool :=
  match kind t with
  | None => true
  | Some _ => false
  end.

(** The generator raises at some point. *)
Fixpoint raises (tr : trace) : bool :=
  match tr with
  | Raise _ => true
  | Yield _ rest => raises rest
  | _ => false
  end.

(** No two no-match tokens in a row. *)
Fixpoint spaced (tr : trace) : bool :=
  match tr with
  | Yield t rest =>
      negb (no_match t
            && match rest with
               | Yield t' _ => no_match t'
               | _ => false
               end)
      && spaced rest
  | _ => true
  end.

(** The first token of a trace, if it yields one. *)
Definition first_token (tr : trace) : option Token :=
  match tr with
  | Yield t _ => Some t
  | _ => None
  end.

(** The start of a match of the combined pattern at the head of [s]. *)
Definition matches_here (r : regex) (s : string) : bool :=
  match rmatch r 0 s (replicate (ngroups r) None) (fun s' c' => Some (s', c')) with
  | Some _ => true
  | None => false
  end.

(** No match of [r] starts at the offsets [a], ..., [a + n - 1] of [text]. *)
Fixpoint unmatched (r : regex) (text : string) (a n : nat) : bool :=
  match n with
  | 0 => true
  | S n' => negb (matches_here r (Str.skip a text)) && unmatched r text (S a) n'
  end.

(** A no-match token covers offsets where [r] does not match. *)
Definition gap_unmatched (r : regex) (text : string) (t : Token) : bool :=
  match kind t with
  | None =>
      unmatched r text (fst (input_range t))
                (snd (input_range t) - fst (input_range t))
  | Some _ => true
  end.

(** The matcher found a match. *)
Definition found (o : option (string * list (option string))) : bool :=
  match o with
  | Some _ => true
  | None => false
  end.

(** None of the patterns [ps], each on its own, matches at the offsets
    [a], ..., [a + n - 1] of [text]. *)
Fixpoint unmatched_by_each (ps : list regex) (text : string) (a n : nat)
    : bool :=
  match n with
  | 0 => true
  | S n' =>
      forallb (fun p => negb (matches_here p (Str.skip a text))) ps
      && unmatched_by_each ps text (S a) n'
  end.

(** A no-match token covers offsets where none of [ps] matches. *)
Definition gap_unmatched_by_each (ps : list regex) (text : string)
    (t : Token) : bool :=
  match kind t with
  | None =>
      unmatched_by_each ps text (fst (input_range t))
                        (snd (input_range t) - fst (input_range t))
  | Some _ => true
  end.




(** [name in bindings] *)
Definition is_bound (bindings : gmap string value) (name : string) : bool :=
  match bindings !! name with
  | Some _ => true
  | None => false
  end.

(** The text of the token, or one of its groups, is a bound name. *)
Definition names_bound (bindings : gmap string value) (t : Token) : bool :=
  is_bound bindings (Lexer.text t)
  || existsb (fun g => match g with
                       | Some name => is_bound bindings name
                       | None => false
                       end) (groups t).

(** A token of the lexer of the package carries the one group its kind
    has, where it has one. *)
Definition sql_groups_ok (t : Token) : bool :=
  if kind_is (kind t) "quoted identifier"
     || kind_is (kind t) "python named parameter"
     || kind_is (kind t) "python named parameter length"
  then match groups t with
       | [Some _] => true
       | _ => false
       end
  else true.

(** What a placeholder of this prefix is replaced by: the literal, or the
    length. *)
Definition replacement (p : Token) (v : value) : outcome string :=
  if kind_is (kind p) "named parameter prefix" then to_sql v
  else length_text v.

(** What a python-style placeholder is replaced by. *)
Definition python_replacement (p : Token) (v : value) : outcome string :=
  if kind_is (kind p) "python named parameter" then to_sql v
  else length_text v.

(** What a state other than the default one puts in the place of a bound
    name. *)
Definition awaited (state : _ParserState) (v : value) : outcome string :=
  match state with
  | IN_PARAMETER => to_sql v
  | _ => length_text v
  end.

(** The token mentions [name]: by its text or by one of its groups. *)
Definition mentions (name : string) (t : Token) : bool :=
  String.eqb (Lexer.text t) name
  || existsb (fun g => match g with
                       | Some m => String.eqb m name
                       | None => false
                       end) (groups t).

(** Every character of [s] satisfies [f]. *)
Fixpoint all_chars (f : ascii -> bool) (s : string) : bool :=
  match s with
  | EmptyString => true
  | String c s' => f c && all_chars f s'
  end.

(** [s] between double quotes. *)
Definition dquoted (s : string) : string :=
  String dquote (s +:+ String dquote EmptyString).

(** No newline in [s]. *)
Fixpoint no_newline (s : string) : bool :=
  match s with
  | EmptyString => true
  | String c s' => negb (Ascii.eqb c newline) && no_newline s'
  end.

(** The pieces of [s] between its single quotes. *)
Fixpoint segments (s : string) : list string :=
  match s with
  | EmptyString => [EmptyString]
  | String c s' =>
      if Ascii.eqb c quote then EmptyString :: segments s'
      else
        match segments s' with
        | [] => [String c EmptyString]
        | seg :: segs => String c seg :: segs
        end
  end.

(** The tokens of quoted strings that lie one behind the other from offset
    [i] on. *)
Fixpoint quoted_tokens (i : nat) (segs : list string) : list Token :=
  match segs with
  | [] => []
  | seg :: segs' =>
      mkToken (Some "quoted string") (quoted seg) []
              (i, i + String.length (quoted seg))
      :: quoted_tokens (i + String.length (quoted seg)) segs'
  end.

(** A trace as the lexer makes them for a set of sub-patterns that is not
    empty: it does not raise, has no two no-match tokens in a row, its
    tokens are well formed and its no-match tokens lie where nothing
    matches. *)
Definition orderly (token_patterns : list (string * regex)) (text : string)
    (tr : trace) : bool :=
  negb (raises tr)
  && spaced tr
  && forallb (fun t =>
                well_formed token_patterns t
                && gap_unmatched (_combine_patterns (map snd token_patterns))
                                 text t)
             (yielded tr).

End Shapes.

(** ** Facts about strings *)

Module StrFacts.

Lemma str_app_cons c (s t : string) : String c s +:+ t = String c (s +:+ t).
Proof. reflexivity. Qed.

Lemma str_app_empty_l (s : string) : "" +:+ s = s.
Proof. reflexivity. Qed.

Lemma str_app_empty_r (s : string) : s +:+ "" = s.
Proof. induction s as [|c s IH]; [reflexivity|]. rewrite str_app_cons, IH. reflexivity. Qed.

Lemma str_app_assoc (a b c : string) : (a +:+ b) +:+ c = a +:+ (b +:+ c).
Proof.
  induction a as [|x a IH]; [reflexivity|].
  rewrite !str_app_cons, IH. reflexivity.
Qed.

Lemma str_length_app (a b : string) :
  String.length (a +:+ b) = String.length a + String.length b.
Proof.
  induction a as [|x a IH]; [reflexivity|].
  rewrite str_app_cons. cbn [String.length]. rewrite IH. reflexivity.
Qed.

Lemma length_zero (s : string) : String.length s = 0 -> s = "".
Proof. destruct s; [reflexivity | discriminate]. Qed.

Lemma first_app (a b : string) : Str.first (String.length a) (a +:+ b) = a.
Proof.
  induction a as [|x a IH]; [destruct b; reflexivity|].
  rewrite str_app_cons. cbn [String.length Str.first]. rewrite IH. reflexivity.
Qed.

Lemma first_all (s : string) : Str.first (String.length s) s = s.
Proof.
  rewrite <- (str_app_empty_r s) at 2. apply first_app.
Qed.

Lemma skip_app (a b : string) : Str.skip (String.length a) (a +:+ b) = b.
Proof.
  induction a as [|x a IH]; [destruct b; reflexivity|].
  rewrite str_app_cons. cbn [String.length Str.skip]. exact IH.
Qed.

Lemma substring_head (b c : string) :
  substring 0 (String.length b) (b +:+ c) = b.
Proof.
  induction b as [|x b IH]; [destruct c; reflexivity|].
  rewrite str_app_cons. cbn [String.length substring]. rewrite IH. reflexivity.
Qed.

Lemma substring_app (a b c : string) :
  substring (String.length a) (String.length b) (a +:+ b +:+ c) = b.
Proof.
  induction a as [|x a IH]; [exact (substring_head b c)|].
  rewrite str_app_cons. cbn [String.length substring]. exact IH.
Qed.

(** [text[len(a) : len(a) + len(b)]] of [a + b + c] is [b]. *)
Lemma slice_app (a b c : string) (j : nat) :
  j = String.length a + String.length b ->
  Str.slice (a +:+ b +:+ c) (String.length a) j = b.
Proof.
  intros ->. unfold Str.slice.
  replace (String.length a + String.length b - String.length a)
    with (String.length b) by lia.
  apply substring_app.
Qed.

Lemma join_empty_app (l1 l2 : list string) :
  Str.join_empty (l1 ++ l2) = Str.join_empty l1 +:+ Str.join_empty l2.
Proof.
  induction l1 as [|p l1 IH]; [reflexivity|].
  cbn [app Str.join_empty]. rewrite IH, str_app_assoc. reflexivity.
Qed.

End StrFacts.

(** ** Facts about the matcher *)

Module ReFacts.

Import Re Props StrFacts.

Lemma reaches_weaken g n b s c k res :
  reaches g n b s c k res -> reaches g n false s c k res.
Proof.
  intros (p & s' & c' & ? & ? & ? & ? & ?).
  exists p, s', c'. repeat split; auto; try discriminate.
Qed.

Section Repeat.

Variable body : string -> captures -> cont -> option (string * captures).
Variables g n : nat.
Hypothesis body_ok : forall s c k res,
  body s c k = Some res -> reaches g n false s c k res.

Lemma repeat_loop_inv fuel : forall s c k res,
  repeat_loop body fuel s c k = Some res -> reaches g n false s c k res.
Proof.
  induction fuel as [|fuel IH]; intros s c k res H; cbn [repeat_loop] in H.
  - exists "", s, c. repeat split; auto; try discriminate.
  - destruct (body s c _) as [r|] eqn:Hb.
    + injection H as ->.
      apply body_ok in Hb as (p & s' & c' & -> & Hk & _ & Hlen & Hfr).
      destruct (_ <? _).
      * apply IH in Hk as (p2 & s2 & c2 & -> & Hk & _ & Hlen2 & Hfr2).
        exists (p +:+ p2), s2, c2. rewrite str_app_assoc.
        repeat split; auto; try discriminate; try congruence.
        intros i Hi. rewrite Hfr2, Hfr; auto.
      * exists p, s', c'. repeat split; auto; try discriminate.
    + exists "", s, c. repeat split; auto; try discriminate.
Qed.

End Repeat.

Lemma app_nonempty_l (p q : string) : p <> "" -> p +:+ q <> "".
Proof. destruct p; [congruence | discriminate]. Qed.

Lemma app_nonempty_r (p q : string) : q <> "" -> p +:+ q <> "".
Proof. destruct p; [trivial | discriminate]. Qed.

(** The rest of the pattern only ever sees a tail of the input; when [r]
    is not nullable the tail is a proper one. *)
Lemma rmatch_inv r : forall g s c k res,
  rmatch r g s c k = Some res ->
  reaches g (ngroups r) (negb (nullable r)) s c k res.
Proof.
  induction r as [|a|neg items|r1 IH1 r2 IH2|r1 IH1 r2 IH2|r1 IH1|r1 IH1|r1 IH1|];
    intros g s c k res H; cbn [rmatch ngroups nullable negb] in *.
  - exists "", s, c. repeat split; auto; try discriminate.
  - destruct s as [|b s']; [discriminate|].
    destruct (Ascii.eqb a b); [|discriminate].
    exists (String b ""), s', c. repeat split; auto; try discriminate.
  - destruct s as [|b s']; [discriminate|].
    destruct (class_matches neg items b); [|discriminate].
    exists (String b ""), s', c. repeat split; auto; try discriminate.
  - apply IH1 in H as (p & s' & c' & -> & Hk & Hne & Hlen & Hfr).
    apply IH2 in Hk as (p2 & s2 & c2 & -> & Hk & Hne2 & Hlen2 & Hfr2).
    exists (p +:+ p2), s2, c2. rewrite str_app_assoc.
    repeat split; auto; try congruence.
    + rewrite negb_andb. intros Hn. apply orb_true_iff in Hn as [Hn|Hn].
      * apply app_nonempty_l; auto.
      * apply app_nonempty_r; auto.
    + intros i Hi. rewrite Hfr2, Hfr; auto; lia.
  - destruct (rmatch r1 g s c k) as [r|] eqn:H1.
    + injection H as ->.
      apply IH1 in H1 as (p & s' & c' & -> & Hk & Hne & Hlen & Hfr).
      exists p, s', c'. repeat split; auto.
      * rewrite negb_orb. intros Hn. apply andb_true_iff in Hn as [Hn _]. auto.
      * intros i Hi. apply Hfr. lia.
    + apply IH2 in H as (p & s' & c' & -> & Hk & Hne & Hlen & Hfr).
      exists p, s', c'. repeat split; auto.
      * rewrite negb_orb. intros Hn. apply andb_true_iff in Hn as [_ Hn]. auto.
      * intros i Hi. apply Hfr. lia.
  - eapply repeat_loop_inv; [|exact H].
    intros s0 c0 k0 res0 H0. eapply reaches_weaken, IH1, H0.
  - apply IH1 in H as (p & s' & c' & -> & Hk & Hne & Hlen & Hfr).
    eapply repeat_loop_inv in Hk;
      [|intros s0 c0 k0 res0 H0; eapply reaches_weaken, IH1, H0].
    destruct Hk as (p2 & s2 & c2 & -> & Hk & _ & Hlen2 & Hfr2).
    exists (p +:+ p2), s2, c2. rewrite str_app_assoc.
    repeat split; auto; try congruence.
    + intros Hn. apply app_nonempty_l; auto.
    + intros i Hi. rewrite Hfr2, Hfr; auto.
  - apply IH1 in H as (p & s' & c' & -> & Hk & Hne & Hlen & Hfr).
    exists p, s',
      (<[g := Some (Str.first (String.length (p +:+ s') - String.length s')
                              (p +:+ s'))]> c').
    split; [reflexivity|]. split; [exact Hk|]. split; [exact Hne|]. split.
    + rewrite length_insert. exact Hlen.
    + intros i Hi. rewrite list_lookup_insert_ne by lia. apply Hfr. lia.
  - exists "", s, c.
    destruct s as [|b s']; [repeat split; auto; try discriminate|].
    destruct b as [[] [] [] [] [] [] [] []]; try discriminate;
      destruct s'; try discriminate; repeat split; auto; try discriminate.
Qed.

End ReFacts.

(** ** Facts about the lexer *)

Module LexerFacts.

Import Re Lexer Props StrFacts ReFacts.

Lemma next_index_snoc acc sp :
  next_index (acc ++ [sp]) = snd (subgroup_range sp).
Proof. unfold next_index. rewrite last_snoc. reflexivity. Qed.

Lemma group_spec_step acc name pattern :
  _token_pattern_to_group_spec acc (name, pattern)
  = acc ++ [mkGroupSpec (next_index acc)
              (next_index acc + 1, next_index acc + 1 + ngroups pattern) name].
Proof. reflexivity. Qed.

Lemma fold_group_specs token_patterns : forall acc,
  fold_left _token_pattern_to_group_spec token_patterns acc
  = acc ++ specs_from (next_index acc) token_patterns.
Proof.
  induction token_patterns as [|[name pattern] rest IH]; intros acc;
    cbn [fold_left specs_from].
  - rewrite app_nil_r. reflexivity.
  - rewrite IH, group_spec_step, next_index_snoc, <- app_assoc.
    reflexivity.
Qed.

Lemma group_specs_from token_patterns :
  _group_specs token_patterns = specs_from 0 token_patterns.
Proof. unfold _group_specs. rewrite fold_group_specs. reflexivity. Qed.

(** A top-level group that matched holds the text that was read. *)
Lemma group_inv r g s c k res :
  rmatch (Group r) g s c k = Some res ->
  g < length c ->
  exists (p s' : string) (c' : list (option string)),
    s = p +:+ s'
    /\ k s' c' = Some res
    /\ (nullable r = false -> p <> "")
    /\ length c' = length c
    /\ (forall i, i < g -> c' !! i = c !! i)
    /\ c' !! g = Some (Some p).
Proof.
  cbn [rmatch]. intros H Hg.
  apply rmatch_inv in H as (p & s' & c' & -> & Hk & Hne & Hlen & Hfr).
  rewrite str_length_app in Hk.
  replace (String.length p + String.length s' - String.length s')
    with (String.length p) in Hk by lia.
  rewrite first_app in Hk.
  exists p, s', (<[g := Some p]> c').
  split; [reflexivity|]. split; [exact Hk|]. split.
  { intros Hn. apply Hne. rewrite Hn. reflexivity. }
  split; [rewrite length_insert; exact Hlen|]. split.
  - intros i Hi. rewrite list_lookup_insert_ne by lia. apply Hfr. lia.
  - apply list_lookup_insert_eq. lia.
Qed.

(** A match of the combined pattern is a match of one sub-pattern, and
    [matched_spec] finds that one, with the text that was read. *)
Lemma combine_inv token_patterns : forall g s c k res,
  token_patterns <> [] ->
  rmatch (_combine_patterns (map snd token_patterns)) g s c k = Some res ->
  (forall j, g <= j < g + ngroups (_combine_patterns (map snd token_patterns)) ->
             c !! j = Some None) ->
  exists (p s' : string) (c' : list (option string)) (spec : _GroupSpec),
    s = p +:+ s'
    /\ k s' c' = Some res
    /\ matched_spec (specs_from g token_patterns) c' = Returns (spec, p)
    /\ (forallb nonnull token_patterns = true -> p <> "")
    /\ (forall j, j < g -> c' !! j = c !! j)
    /\ length c' = length c.
Proof.
  induction token_patterns as [|[name pattern] rest IH]; intros g s c k res Hne H Hc;
    [congruence|].
  destruct rest as [|np rest].
  - cbn [map snd _combine_patterns] in H, Hc.
    apply group_inv in H as (p & s' & c' & -> & Hk & Hnn & Hlen & Hfr & Hg).
    + exists p, s', c', (mkGroupSpec g (g + 1, g + 1 + ngroups pattern) name).
      split; [reflexivity|]. split; [exact Hk|]. split.
      { cbn [specs_from matched_spec group_index]. rewrite Hg. reflexivity. }
      split; [|split; assumption].
      cbn [forallb]. unfold nonnull at 1. cbn [snd].
      intros Hn. apply andb_true_iff in Hn as [Hn _].
      apply Hnn. apply negb_true_iff. exact Hn.
    + apply lookup_lt_is_Some. rewrite Hc; [eauto|]. cbn [ngroups]. lia.
  - set (rest' := np :: rest) in *.
    assert (Heq : _combine_patterns (map snd ((name, pattern) :: rest'))
                  = Alt (Group pattern) (_combine_patterns (map snd rest'))).
    { subst rest'. destruct np. reflexivity. }
    rewrite Heq in H, Hc. cbn [rmatch ngroups] in H, Hc.
    destruct (rmatch pattern (S g) s c _) as [r|] eqn:H1.
    + injection H as ->.
      change (rmatch (Group pattern) g s c k = Some res) in H1.
      apply group_inv in H1 as (p & s' & c' & -> & Hk & Hnn & Hlen & Hfr & Hg).
      * exists p, s', c', (mkGroupSpec g (g + 1, g + 1 + ngroups pattern) name).
        split; [reflexivity|]. split; [exact Hk|]. split.
        { cbn [specs_from matched_spec group_index]. rewrite Hg. reflexivity. }
        split; [|split; assumption].
        cbn [forallb]. unfold nonnull at 1. cbn [snd].
        intros Hn. apply andb_true_iff in Hn as [Hn _].
        apply Hnn. apply negb_true_iff. exact Hn.
      * apply lookup_lt_is_Some. rewrite Hc; [eauto|]. lia.
    + apply IH in H as (p & s' & c' & spec & -> & Hk & Hm & Hnn & Hfr & Hlen).
      * exists p, s', c', spec.
        split; [reflexivity|]. split; [exact Hk|]. split.
        { cbn [specs_from matched_spec group_index].
          rewrite Hfr by lia. rewrite Hc by lia.
          replace (g + 1 + ngroups pattern) with (g + S (ngroups pattern)) by lia.
          exact Hm. }
        split; [|split; [|exact Hlen]].
        -- cbn [forallb]. intros Hn. apply andb_true_iff in Hn as [_ Hn]. auto.
        -- intros j Hj. apply Hfr. lia.
      * subst rest'. discriminate.
      * intros j Hj. apply Hc. lia.
Qed.

Lemma search_from_eq r s pos :
  search_from r s pos
  = match rmatch r 0 s (replicate (ngroups r) None) (fun s' c' => Some (s', c')) with
    | Some (s', c') =>
        Some (mkMatch pos (pos + (String.length s - String.length s')) c')
    | None =>
        match s with
        | String _ s1 => search_from r s1 (S pos)
        | EmptyString => None
        end
    end.
Proof. destruct s; reflexivity. Qed.

(** A match of the combined pattern at the head of [s]. *)
Lemma match_here token_patterns s s' c' :
  never_empty token_patterns = true ->
  rmatch (_combine_patterns (map snd token_patterns)) 0 s
         (replicate (ngroups (_combine_patterns (map snd token_patterns))) None)
         (fun s' c' => Some (s', c')) = Some (s', c') ->
  exists (p : string) (spec : _GroupSpec),
    s = p +:+ s'
    /\ p <> ""
    /\ String.length s - String.length s' = String.length p
    /\ matched_spec (specs_from 0 token_patterns) c' = Returns (spec, p).
Proof.
  intros Hne Hm. apply andb_true_iff in Hne as [Hlen Hnn].
  assert (Hnil : token_patterns <> []).
  { destruct token_patterns; [discriminate | congruence]. }
  apply combine_inv in Hm as (p & s2 & c2 & spec & Hs & Hk & Hsp & Hp & _ & _);
    [|assumption|intros j Hj; apply lookup_replicate_2; lia].
  injection Hk as -> ->.
  exists p, spec. subst s. rewrite str_length_app.
  repeat split; auto; lia.
Qed.

(** What [search] finds: after a gap that no sub-pattern matches at, a
    stretch of text, not empty, that [matched_spec] gives a kind to. *)
Lemma search_from_inv token_patterns :
  never_empty token_patterns = true ->
  forall s pos m,
    search_from (_combine_patterns (map snd token_patterns)) s pos = Some m ->
    exists (gap p s' : string) (spec : _GroupSpec),
      s = gap +:+ p +:+ s'
      /\ p <> ""
      /\ m_start m = pos + String.length gap
      /\ m_end m = pos + String.length gap + String.length p
      /\ matched_spec (specs_from 0 token_patterns) (m_groups m)
         = Returns (spec, p).
Proof.
  intros Hne.
  assert (Hhere : forall s pos s' c',
    rmatch (_combine_patterns (map snd token_patterns)) 0 s
           (replicate (ngroups (_combine_patterns (map snd token_patterns))) None)
           (fun s' c' => Some (s', c')) = Some (s', c') ->
    exists (gap p s'' : string) (spec : _GroupSpec),
      s = gap +:+ p +:+ s''
      /\ p <> ""
      /\ pos = pos + String.length gap
      /\ pos + (String.length s - String.length s')
         = pos + String.length gap + String.length p
      /\ matched_spec (specs_from 0 token_patterns) c' = Returns (spec, p)).
  { intros s pos s' c' Hm.
    apply match_here in Hm as (p & spec & -> & Hp & Hl & Hsp); [|assumption].
    exists "", p, s', spec. cbn [String.length]. rewrite str_app_empty_l.
    repeat split; auto; lia. }
  induction s as [|a s IH]; intros pos m H; rewrite search_from_eq in H.
  - destruct (rmatch _ _ _ _ _) as [[s' c']|] eqn:Hm; [|discriminate].
    injection H as <-. cbn [m_start m_end m_groups]. eauto.
  - destruct (rmatch _ _ _ _ _) as [[s' c']|] eqn:Hm.
    + injection H as <-. cbn [m_start m_end m_groups]. eauto.
    + apply IH in H as (gap & p & s' & spec & -> & Hp & Hst & Hen & Hsp).
      exists (String a gap), p, s', spec. cbn [String.length].
      repeat split; auto; lia.
Qed.

Lemma tokens_loop_eq fuel self text index end_ :
  tokens_loop fuel self text index end_
  = if index =? end_ then Done
    else if negb (index <? end_) then Raise AssertionError
    else
      match fuel with
      | 0 => Running
      | S fuel' =>
          match search (_regex self) text index end_ with
          | None =>
              Yield (mkToken None (Str.slice text index end_) [] (index, end_))
                    (tokens_loop fuel' self text end_ end_)
          | Some m =>
              (if negb (m_start m =? index)
               then Yield (mkToken None (Str.slice text index (m_start m)) []
                                   (index, m_start m))
               else fun rest => rest)
                match matched_spec (_specs self) (m_groups m) with
                | Returns (spec, t) =>
                    Yield (mkToken (Some (token_kind spec)) t
                             (subgroups (m_groups m) (subgroup_range spec))
                             (m_start m, m_end m))
                          (tokens_loop fuel' self text (m_end m) end_)
                | Raises e => Raise e
                | Diverges => Running
                end
          end
      end.
Proof.
  destruct fuel; cbn [tokens_loop]; [reflexivity|].
  destruct (index =? end_); [reflexivity|].
  destruct (negb (index <? end_)); [reflexivity|].
  destruct (search _ _ _ _); [|reflexivity].
  destruct (negb (_ =? _)); reflexivity.
Qed.

Lemma tokens_loop_end fuel self text end_ :
  tokens_loop fuel self text end_ end_ = Done.
Proof. rewrite tokens_loop_eq, Nat.eqb_refl. reflexivity. Qed.

Lemma search_at r (done rest : string) :
  search r (done +:+ rest) (String.length done) (String.length (done +:+ rest))
  = search_from r rest (String.length done).
Proof. unfold search. rewrite first_all, skip_app. reflexivity. Qed.

Lemma slice_at (text a b c : string) (i j : nat) :
  text = a +:+ b +:+ c ->
  i = String.length a ->
  j = String.length a + String.length b ->
  Str.slice text i j = b.
Proof. intros -> -> ->. apply slice_app. reflexivity. Qed.

Lemma tiles_cons (text a b c : string) (t : Token) (ts : list Token) :
  text = a +:+ b +:+ c ->
  b <> "" ->
  input_range t = (String.length a, String.length a + String.length b) ->
  Lexer.text t = b ->
  tiles text (String.length a + String.length b) ts = true ->
  tiles text (String.length a) (t :: ts) = true.
Proof.
  intros Htext Hb Hr Ht Hts. cbn [tiles]. rewrite Hr. cbn [fst snd].
  rewrite Hts, Ht, (slice_at text a b c) by auto.
  rewrite String.eqb_refl, Nat.eqb_refl.
  assert (0 < String.length b) by (destruct b; [congruence | cbn; lia]).
  assert (String.length text
          = String.length a + (String.length b + String.length c))
    by (subst text; rewrite !str_length_app; reflexivity).
  replace (String.length a <? String.length a + String.length b) with true
    by (symmetry; apply Nat.ltb_lt; lia).
  replace (String.length a + String.length b <=? String.length text) with true
    by (symmetry; apply Nat.leb_le; lia).
  reflexivity.
Qed.

Section Tokens.

Variable token_patterns : list (string * regex).
Hypothesis patterns_ok : never_empty token_patterns = true.

Let self : Lexer := Lexer.init token_patterns.

(** From any offset on, the loop yields finitely many tokens and stops;
    they tile the rest of the text. *)
Lemma tokens_loop_total : forall n text done rest,
  text = done +:+ rest ->
  String.length rest <= n ->
  exists toks : list Token,
    (forall fuel, String.length rest <= fuel ->
       tokens_loop fuel self text (String.length done) (String.length text)
       = yields toks Done)
    /\ joined toks = rest
    /\ tiles text (String.length done) toks = true
    /\ length toks <= 2 * String.length rest.
Proof.
  induction n as [|n IH]; intros text done rest Htext Hn.
  { apply Nat.le_0_r, length_zero in Hn. subst rest.
    rewrite str_app_empty_r in Htext. subst text.
    exists []. split; [|split; [|split]].
    - intros fuel _. apply tokens_loop_end.
    - reflexivity.
    - cbn [tiles]. apply Nat.eqb_refl.
    - cbn. lia. }
  destruct rest as [|a rest0] eqn:Hrest.
  { rewrite str_app_empty_r in Htext. subst text.
    exists []. split; [|split; [|split]].
    - intros fuel _. apply tokens_loop_end.
    - reflexivity.
    - cbn [tiles]. apply Nat.eqb_refl.
    - cbn. lia. }
  rewrite <- Hrest in *.
  assert (Hpos : 0 < String.length rest) by (subst rest; cbn; lia).
  assert (Hlt : String.length text = String.length done + String.length rest)
    by (subst text; apply str_length_app).
  assert (Hhead : forall fuel,
    tokens_loop (S fuel) self text (String.length done) (String.length text)
    = match search_from (_regex self) rest (String.length done) with
      | None =>
          Yield (mkToken None (Str.slice text (String.length done)
                                         (String.length text)) []
                         (String.length done, String.length text))
                (tokens_loop fuel self text (String.length text)
                             (String.length text))
      | Some m =>
          (if negb (m_start m =? String.length done)
           then Yield (mkToken None
                         (Str.slice text (String.length done) (m_start m)) []
                         (String.length done, m_start m))
           else fun rest => rest)
            match matched_spec (_specs self) (m_groups m) with
            | Returns (spec, t) =>
                Yield (mkToken (Some (token_kind spec)) t
                         (subgroups (m_groups m) (subgroup_range spec))
                         (m_start m, m_end m))
                      (tokens_loop fuel self text (m_end m)
                                   (String.length text))
            | Raises e => Raise e
            | Diverges => Running
            end
      end).
  { intros fuel. rewrite tokens_loop_eq.
    replace (String.length done =? String.length text) with false
      by (symmetry; apply Nat.eqb_neq; lia).
    replace (String.length done <? String.length text) with true
      by (symmetry; apply Nat.ltb_lt; lia).
    cbn [negb]. rewrite Htext at 1 2. rewrite search_at. reflexivity. }
  destruct (search_from (_regex self) rest (String.length done)) as [m|] eqn:Hs.
  - apply search_from_inv in Hs
      as (gap & p & s' & spec & Hsplit & Hp & Hst & Hen & Hsp);
      [|exact patterns_ok].
    assert (Hlp : 0 < String.length p) by (destruct p; [congruence | cbn; lia]).
    assert (Hlr : String.length rest
                  = String.length gap + (String.length p + String.length s'))
      by (rewrite Hsplit, !str_length_app; reflexivity).
    assert (Htext' : text = (done +:+ gap +:+ p) +:+ s').
    { rewrite Htext, Hsplit, !str_app_assoc. reflexivity. }
    destruct (IH text (done +:+ gap +:+ p) s' Htext' ltac:(lia))
      as (toks' & Hrun & Hjoin & Htiles & Hcount).
    rewrite !str_length_app in Hrun, Htiles.
    set (tok := mkToken (Some (token_kind spec)) p
                  (subgroups (m_groups m) (subgroup_range spec))
                  (m_start m, m_end m)).
    assert (Htok : tiles text (String.length done + String.length gap)
                     (tok :: toks') = true).
    { rewrite <- str_length_app.
      apply (tiles_cons text (done +:+ gap) p s').
      - rewrite Htext, Hsplit, !str_app_assoc. reflexivity.
      - exact Hp.
      - subst tok. cbn [input_range]. rewrite Hst, Hen, str_length_app.
        reflexivity.
      - reflexivity.
      - rewrite str_length_app, <- Nat.add_assoc. exact Htiles. }
    assert (Hspecs : matched_spec (_specs self) (m_groups m) = Returns (spec, p)).
    { subst self. cbn [_specs init]. rewrite group_specs_from. exact Hsp. }
    destruct (string_dec gap "") as [Hgap|Hgap].
    + assert (Hlg : String.length gap = 0) by (rewrite Hgap; reflexivity).
      exists (tok :: toks'). split; [|split; [|split]].
      * intros [|fuel] Hfuel; [lia|].
        rewrite Hhead, Hspecs.
        replace (m_start m =? String.length done) with true
          by (symmetry; apply Nat.eqb_eq; lia).
        cbn [negb yields]. fold tok. f_equal.
        rewrite Hen, <- Nat.add_assoc. apply Hrun. lia.
      * unfold joined in *. cbn [map Str.join_empty]. subst tok.
        cbn [Lexer.text]. rewrite Hjoin, Hsplit, Hgap. reflexivity.
      * rewrite Hlg, Nat.add_0_r in Htok. exact Htok.
      * cbn [length]. lia.
    + assert (Hlg : 0 < String.length gap)
        by (destruct gap; [congruence | cbn; lia]).
      set (gtok := mkToken None (Str.slice text (String.length done) (m_start m))
                     [] (String.length done, m_start m)).
      assert (Hgt : Lexer.text gtok = gap).
      { subst gtok. cbn [Lexer.text].
        apply (slice_at text done gap (p +:+ s')); auto.
        rewrite Htext, Hsplit. reflexivity. }
      exists (gtok :: tok :: toks'). split; [|split; [|split]].
      * intros [|fuel] Hfuel; [lia|].
        rewrite Hhead, Hspecs, Hst.
        replace (String.length done + String.length gap =? String.length done)
          with false by (symmetry; apply Nat.eqb_neq; lia).
        cbn [negb yields]. rewrite <- Hst. fold gtok. fold tok.
        do 2 f_equal. rewrite Hen, <- Nat.add_assoc. apply Hrun. lia.
      * unfold joined in *. cbn [map Str.join_empty]. rewrite Hgt. subst tok.
        cbn [Lexer.text]. rewrite Hjoin, Hsplit. reflexivity.
      * apply (tiles_cons text done gap (p +:+ s')); auto.
        -- rewrite Htext, Hsplit. reflexivity.
        -- subst gtok. cbn [input_range]. rewrite Hst. reflexivity.
      * cbn [length]. lia.
  - set (tok := mkToken None (Str.slice text (String.length done)
                                        (String.length text)) []
                        (String.length done, String.length text)).
    assert (Ht : Lexer.text tok = rest).
    { subst tok. cbn [Lexer.text].
      apply (slice_at text done rest ""); auto.
      rewrite str_app_empty_r. exact Htext. }
    exists [tok]. split; [|split; [|split]].
    + intros [|fuel] Hfuel; [lia|].
      rewrite Hhead, tokens_loop_end. reflexivity.
    + unfold joined. cbn [map Str.join_empty]. rewrite Ht.
      apply str_app_empty_r.
    + apply (tiles_cons text done rest ""); auto.
      * rewrite str_app_empty_r. exact Htext.
      * subst rest. discriminate.
      * subst tok. cbn [input_range]. rewrite Hlt. reflexivity.
      * cbn [tiles]. rewrite Hlt. apply Nat.eqb_refl.
    + cbn [length]. lia.
Qed.

End Tokens.

End LexerFacts.

(** ** The tokenizer: what it yields and when it stops *)

Module LexerTheorems.

Import Re Lexer Props StrFacts LexerFacts.

Lemma yielded_yields toks : yielded (yields toks Done) = toks.
Proof. induction toks as [|t ts IH]; cbn; congruence. Qed.

Lemma finished_yields toks : finished (yields toks Done) = true.
Proof. induction toks as [|t ts IH]; cbn; congruence. Qed.

Lemma running_not_finished toks : finished (yields toks Running) = false.
Proof. induction toks as [|t ts IH]; cbn; congruence. Qed.

(** The tokens of [text], whatever the fuel, once there is one unit per
    character. *)
Lemma tokenize_total text token_patterns :
  never_empty token_patterns = true ->
  exists toks : list Token,
    (forall fuel, String.length text <= fuel ->
       tokenize fuel text token_patterns = yields toks Done)
    /\ joined toks = text
    /\ tiles text 0 toks = true
    /\ length toks <= 2 * String.length text.
Proof.
  intros Hne.
  exact (tokens_loop_total token_patterns Hne (String.length text) text "" text
           eq_refl (Nat.le_refl _)).
Qed.

Lemma spaces_stuck fuel :
  tokenize fuel "x" spaces = yields (repeat (empty_token "spaces") fuel) Running.
Proof.
  unfold tokenize, tokens.
  induction fuel as [|fuel IH]; [reflexivity|].
  cbn [repeat yields]. rewrite <- IH. reflexivity.
Qed.

Lemma some_a_stuck fuel :
  tokenize fuel "b" some_a = yields (repeat (empty_token "as") fuel) Running.
Proof.
  unfold tokenize, tokens.
  induction fuel as [|fuel IH]; [reflexivity|].
  cbn [repeat yields]. rewrite <- IH. reflexivity.
Qed.

Lemma joined_empty_tokens name n : joined (repeat (empty_token name) n) = "".
Proof. induction n as [|n IH]; [reflexivity|]. exact IH. Qed.

Lemma yielded_running toks : yielded (yields toks Running) = toks.
Proof. induction toks as [|t ts IH]; cbn; congruence. Qed.

(** With no sub-pattern at all the combined pattern is the empty one; it
    matches at once and no spec claims the match. *)
Example tokenize_no_patterns : tokenize 1 "b" [] = Raise StopIteration.
Proof. reflexivity. Qed.

(** C3 (code defect): with the sub-pattern [\s*] the tokens of ["x"] are
    empty ones without end: the match at 0 is empty, the index stays where
    it is, and every round of the loop yields the same empty token.
    However many are drawn, the generator has not stopped and their text,
    joined, is not ["x"]. *)
Theorem tokenize_empty_match_loses_input :
  (forall fuel,
     tokenize fuel "x" spaces
     = yields (repeat (mkToken (Some "spaces") "" [] (0, 0)) fuel) Running)
  /\ ~ exists fuel,
         finished (tokenize fuel "x" spaces) = true
         \/ joined (yielded (tokenize fuel "x" spaces)) = "x".
Proof.
  split; [exact spaces_stuck|].
  intros [fuel H]. rewrite spaces_stuck in H.
  rewrite running_not_finished, yielded_running, joined_empty_tokens in H.
  destruct H; discriminate.
Qed.

(** X18: for every input text and every set of sub-patterns, not empty,
    none of which can match the empty string, [tokenize] yields a finite
    list of tokens and stops; the text of the tokens, joined in order, is
    the input, and the tokens tile the input: each begins where the one
    before ends, the first at 0, the last ends at the end, and each
    carries the text of its range. *)
Theorem tokenize_reconstructs_input text token_patterns :
  never_empty token_patterns = true ->
  exists toks : list Token,
    tokenize (String.length text) text token_patterns = yields toks Done
    /\ yielded (tokenize (String.length text) text token_patterns) = toks
    /\ joined toks = text
    /\ tiles text 0 toks = true.
Proof.
  intros Hne.
  destruct (tokenize_total text token_patterns Hne)
    as (toks & Hrun & Hjoin & Htiles & _).
  exists toks. rewrite (Hrun _ (Nat.le_refl _)), yielded_yields. auto.
Qed.

(** C4 (code defect): with the sub-pattern [a*] the generator for the text
    ["b"] never stops, whatever the number of rounds: the match at 0 is
    empty, the index stays at 0, and every round yields an empty token and
    consumes nothing.  The same sub-pattern on ["aaa"], where the match is
    not empty, takes one round. *)
Theorem tokenize_empty_match_diverges :
  (forall fuel,
     tokenize fuel "b" some_a
     = yields (repeat (mkToken (Some "as") "" [] (0, 0)) fuel) Running)
  /\ (~ exists fuel, finished (tokenize fuel "b" some_a) = true)
  /\ tokenize 1 "aaa" some_a = Yield (mkToken (Some "as") "aaa" [] (0, 3)) Done.
Proof.
  split; [exact some_a_stuck|]. split; [|reflexivity].
  intros [fuel H]. rewrite some_a_stuck, running_not_finished in H.
  discriminate.
Qed.

(** X19: for every input text and every set of sub-patterns, not empty,
    none of which can match the empty string, the generator stops without
    raising after at most one round per character, having yielded the
    whole input in at most two tokens per character; more rounds change
    nothing. *)
Theorem tokenize_terminates text token_patterns :
  never_empty token_patterns = true ->
  forall fuel, String.length text <= fuel ->
    finished (tokenize fuel text token_patterns) = true
    /\ tokenize fuel text token_patterns
       = tokenize (String.length text) text token_patterns
    /\ length (yielded (tokenize fuel text token_patterns))
       <= 2 * String.length text
    /\ joined (yielded (tokenize fuel text token_patterns)) = text
    /\ tiles text 0 (yielded (tokenize fuel text token_patterns)) = true.
Proof.
  intros Hne fuel Hfuel.
  destruct (tokenize_total text token_patterns Hne)
    as (toks & Hrun & Hjoin & Htiles & Hcount).
  rewrite (Hrun fuel Hfuel), (Hrun _ (Nat.le_refl _)).
  rewrite finished_yields, yielded_yields. auto.
Qed.

End LexerTheorems.

(** ** Instances *)

Module LexerWitnesses.

Import Re Lexer Props Sqlbindarray LexerTheorems.

Lemma tokenize_reconstructs_input_witness :
  exists toks : list Token,
    tokenize (String.length "select :x") "select :x" _token_patterns
    = yields toks Done
    /\ yielded (tokenize (String.length "select :x") "select :x" _token_patterns)
       = toks
    /\ joined toks = "select :x"
    /\ tiles "select :x" 0 toks = true.
Proof.
  apply (tokenize_reconstructs_input "select :x" _token_patterns).
  reflexivity.
Defined.

Lemma tokenize_terminates_witness :
  finished (tokenize 20 "a -- b" _token_patterns) = true
  /\ tokenize 20 "a -- b" _token_patterns
     = tokenize (String.length "a -- b") "a -- b" _token_patterns
  /\ length (yielded (tokenize 20 "a -- b" _token_patterns))
     <= 2 * String.length "a -- b"
  /\ joined (yielded (tokenize 20 "a -- b" _token_patterns)) = "a -- b"
  /\ tiles "a -- b" 0 (yielded (tokenize 20 "a -- b" _token_patterns)) = true.
Proof.
  apply (tokenize_terminates "a -- b" _token_patterns).
  - reflexivity.
  - vm_compute. lia.
Defined.

End LexerWitnesses.

(** ** Facts about the encoder *)

Module EncodeFacts.

Import Encode Sqlbindarray Props StrFacts.


Lemma to_sql_at_list depth l :
  to_sql_at (S depth) (VList l)
  = match each (to_sql_at depth) l with
    | Returns parts => Returns ("(" +:+ Str.join ", " parts +:+ ")")
    | Raises e => Raises e
    | Diverges => Diverges
    end.
Proof. reflexivity. Qed.

Lemma to_sql_str s :
  to_sql (VStr s) = Returns ("'" +:+ Str.replace_char "'" "''" s +:+ "'").
Proof. reflexivity. Qed.

Lemma str_int_decides n : str_int n <> Diverges.
Proof. unfold str_int. destruct (_ <? _); discriminate. Qed.

Lemma each_decides (f : value -> outcome string) l :
  (forall v, f v <> Diverges) -> each f l <> Diverges.
Proof.
  intros Hf. induction l as [|x l IH]; cbn [each]; [discriminate|].
  pose proof (Hf x) as Hx.
  destruct (f x); [|discriminate|congruence].
  destruct (each f l); [discriminate|discriminate|congruence].
Qed.

Lemma to_sql_at_decides depth : forall v, to_sql_at depth v <> Diverges.
Proof.
  induction depth as [|depth IH]; intros v; [discriminate|].
  destruct v as [s|n|repr|l| |len [e|]]; try discriminate.
  - apply str_int_decides.
  - rewrite to_sql_at_list. pose proof (each_decides _ l IH) as H.
    destruct (each (to_sql_at depth) l); [discriminate|discriminate|congruence].
Qed.

(** [to_sql] returns or raises. *)
Lemma to_sql_decides v : to_sql v <> Diverges.
Proof. apply to_sql_at_decides. Qed.






Lemma replace_quote_doubled s : Str.replace_char quote "''" s = doubled s.
Proof.
  induction s as [|c s IH]; [reflexivity|].
  cbn [Str.replace_char doubled]. rewrite IH.
  destruct (Ascii.eqb c quote); reflexivity.
Qed.

Lemma collapse_doubled s : collapse (doubled s +:+ String quote "") = Some s.
Proof.
  induction s as [|c s IH]; [reflexivity|].
  cbn [doubled]. destruct (Ascii.eqb c quote) eqn:Hc.
  - apply Ascii.eqb_eq in Hc. subst c.
    rewrite !str_app_cons. cbn [collapse].
    replace (Ascii.eqb quote quote) with true by reflexivity.
    rewrite IH. reflexivity.
  - rewrite str_app_cons. cbn [collapse]. rewrite Hc, IH. reflexivity.
Qed.

Lemma doubled_no_quote s : no_quote s = true -> doubled s = s.
Proof.
  induction s as [|c s IH]; [reflexivity|].
  cbn [no_quote doubled]. intros H. apply andb_true_iff in H as [Hc Hs].
  apply negb_true_iff in Hc. rewrite Hc, IH by exact Hs. reflexivity.
Qed.

End EncodeFacts.

(** ** The encoder *)

Module EncodeTheorems.

Import Encode Sqlbindarray Props StrFacts EncodeFacts.

(** C8 (confirmed): for every string [s], [to_sql] returns [s] between
    single quotes with every single quote inside doubled and every other
    character as it is; reading the result back -- outer quotes stripped,
    doubled quotes collapsed -- gives [s] again. *)
Theorem to_sql_string_round_trip (s : string) :
  to_sql (VStr s) = Returns (quoted (doubled s))
  /\ decode (quoted (doubled s)) = Some s
  /\ (no_quote s = true -> to_sql (VStr s) = Returns (quoted s)).
Proof.
  assert (H : to_sql (VStr s) = Returns (quoted (doubled s))).
  { rewrite to_sql_str, replace_quote_doubled. reflexivity. }
  split; [exact H|]. split.
  - unfold quoted, decode.
    replace (Ascii.eqb quote quote) with true by reflexivity.
    apply collapse_doubled.
  - intros Hq. rewrite H, doubled_no_quote by exact Hq. reflexivity.
Qed.



End EncodeTheorems.

(** ** Facts about the parser *)

Module ParserFacts.

Import Re Lexer Encode Sqlbindarray Props StrFacts LexerFacts LexerTheorems.

Lemma kind_is_true k name : kind_is k name = true -> k = Some name.
Proof.
  destruct k as [k'|]; cbn [kind_is]; [|discriminate].
  intros H. apply String.eqb_eq in H. congruence.
Qed.

(** Comments and whitespace are enqueued in every state. *)
Lemma handle_filler t state bindings :
  is_filler t = true ->
  _handle_token t state bindings = Returns (PUSH, Lexer.text t, state).
Proof.
  unfold is_filler, _handle_token. intros ->. reflexivity.
Qed.

(** Outside a placeholder, a token that is no filler, no prefix and no
    python-style placeholder goes to the output as it is. *)
Lemma handle_plain t bindings :
  is_filler t = false ->
  plain t = true ->
  _handle_token t CHILLIN bindings = Returns (FLUSH, Lexer.text t, CHILLIN).
Proof.
  unfold is_filler, plain, is_prefix, is_python, _handle_token.
  intros -> H. apply negb_true_iff in H.
  apply orb_false_iff in H as [H1 H2].
  apply orb_false_iff in H1 as [-> ->].
  apply orb_false_iff in H2 as [-> ->].
  reflexivity.
Qed.

(** A prefix read outside a placeholder is enqueued and opens one. *)
Lemma handle_prefix t bindings :
  is_prefix t = true ->
  exists state,
    state <> CHILLIN
    /\ _handle_token t CHILLIN bindings = Returns (PUSH, Lexer.text t, state).
Proof.
  unfold is_prefix, _handle_token. intros H.
  apply orb_true_iff in H as [H|H]; apply kind_is_true in H; rewrite H.
  - exists IN_PARAMETER. split; [discriminate | reflexivity].
  - exists IN_PARAMETER_LENGTH. split; [discriminate | reflexivity].
Qed.


Lemma name_of_not_filler t name : name_of t = Some name -> is_filler t = false.
Proof.
  unfold name_of, is_filler.
  destruct (kind_is (kind t) "word") eqn:Hw.
  { apply kind_is_true in Hw. rewrite Hw. reflexivity. }
  destruct (kind_is (kind t) "quoted identifier") eqn:Hq; [|discriminate].
  apply kind_is_true in Hq. rewrite Hq. reflexivity.
Qed.

(** After a prefix, a name that is not bound goes to the output as it is,
    behind what was enqueued. *)
Lemma handle_unbound t state bindings name :
  state <> CHILLIN ->
  name_of t = Some name ->
  bindings !! name = None ->
  _handle_token t state bindings = Returns (FLUSH, Lexer.text t, CHILLIN).
Proof.
  intros Hs Hn Hb. pose proof (name_of_not_filler t name Hn) as Hf.
  unfold is_filler in Hf. unfold name_of in Hn. unfold _handle_token.
  rewrite Hf.
  destruct (kind_is (kind t) "word") eqn:Hw.
  - injection Hn as Hn. rewrite Hn, Hb.
    destruct state; [congruence | reflexivity | reflexivity].
  - destruct (kind_is (kind t) "quoted identifier") eqn:Hq; [|discriminate].
    destruct (groups t) as [|[g|] [|? ?]]; try discriminate.
    injection Hn as ->. cbn [only_group]. rewrite Hb.
    destruct state; [congruence | reflexivity | reflexivity].
Qed.

Lemma python_not_filler t : is_python t = true -> is_filler t = false.
Proof.
  unfold is_python, is_filler. intros H.
  apply orb_true_iff in H as [H|H]; apply kind_is_true in H; rewrite H;
    reflexivity.
Qed.

(** A python-style placeholder whose name is not bound goes to the output
    as it is. *)
Lemma handle_python_unbound t bindings name :
  python_name_of t = Some name ->
  bindings !! name = None ->
  _handle_token t CHILLIN bindings = Returns (FLUSH, Lexer.text t, CHILLIN).
Proof.
  unfold python_name_of. intros Hn Hb.
  destruct (is_python t) eqn:Hp; [|discriminate].
  pose proof (python_not_filler t Hp) as Hf. unfold is_filler in Hf.
  unfold _handle_token. rewrite Hf.
  destruct (groups t) as [|[g|] [|? ?]]; try discriminate.
  injection Hn as ->. cbn [only_group]. rewrite Hb.
  unfold is_python in Hp.
  destruct (kind_is (kind t) "python named parameter"); [reflexivity|].
  cbn [orb] in Hp. rewrite Hp. reflexivity.
Qed.

(** The loop over a generator that yields [toks] first is the loop over
    [toks], then the loop over what follows. *)
Lemma replace_loop_yields toks : forall rest state out enq bindings,
  replace_loop (yields toks rest) state out enq bindings
  = match run toks state out enq bindings with
    | Returns (state', out', enq') => replace_loop rest state' out' enq' bindings
    | Raises e => Raises e
    | Diverges => Diverges
    end.
Proof.
  induction toks as [|t ts IH]; intros rest state out enq bindings;
    cbn [yields run replace_loop]; [reflexivity|].
  destruct (_handle_token t state bindings) as [[[op part] state']|e|];
    [|reflexivity|reflexivity].
  destruct op; apply IH.
Qed.



Lemma sql_patterns_never_empty : never_empty _token_patterns = true.
Proof. reflexivity. Qed.

(** The tokens of a statement: finitely many, and their text is the
    statement. *)
Lemma _tokens_total text :
  exists toks : list Token,
    _tokens text = yields toks Done /\ joined toks = text.
Proof.
  destruct (tokenize_total text _token_patterns sql_patterns_never_empty)
    as (toks & Hrun & Hjoin & _).
  exists toks. split; [|exact Hjoin].
  apply (Hrun _ (Nat.le_refl _)).
Qed.

(** Tokens without placeholder syntax are copied, in order. *)
Lemma run_plain toks : forall out enq bindings,
  forallb plain toks = true ->
  exists out' enq',
    run toks CHILLIN out enq bindings = Returns (CHILLIN, out', enq')
    /\ Str.join_empty (out' ++ enq')
       = Str.join_empty (out ++ enq) +:+ joined toks.
Proof.
  induction toks as [|t ts IH]; intros out enq bindings H.
  - exists out, enq. split; [reflexivity|].
    unfold joined. cbn [map Str.join_empty]. rewrite str_app_empty_r. reflexivity.
  - cbn [forallb] in H. apply andb_true_iff in H as [Ht Hts].
    cbn [run]. destruct (is_filler t) eqn:Hf.
    + rewrite (handle_filler t CHILLIN bindings Hf).
      destruct (IH out (enq ++ [Lexer.text t]) bindings Hts)
        as (out' & enq' & Hrun & Hjoin).
      exists out', enq'. split; [exact Hrun|]. rewrite Hjoin.
      unfold joined. cbn [map Str.join_empty].
      rewrite !join_empty_app. cbn [Str.join_empty].
      rewrite str_app_empty_r, !str_app_assoc. reflexivity.
    + rewrite (handle_plain t bindings Hf Ht).
      destruct (IH ((out ++ enq) ++ [Lexer.text t]) [] bindings Hts)
        as (out' & enq' & Hrun & Hjoin).
      exists out', enq'. split; [exact Hrun|]. rewrite Hjoin.
      unfold joined. cbn [map Str.join_empty].
      rewrite app_nil_r, !join_empty_app. cbn [Str.join_empty].
      rewrite str_app_empty_r, !str_app_assoc. reflexivity.
Qed.

Lemma yields_app toks1 toks2 rest :
  yields (toks1 ++ toks2) rest = yields toks1 (yields toks2 rest).
Proof. induction toks1 as [|t ts IH]; cbn [app yields]; congruence. Qed.



(** After a prefix: fillers, then a name that is not bound. *)
Lemma run_name_unbound more : forall state out enq bindings name,
  state <> CHILLIN ->
  name_after_prefix more = Some name ->
  bindings !! name = None ->
  run more state out enq bindings
  = Returns (CHILLIN, (out ++ enq) ++ map Lexer.text more, []).
Proof.
  induction more as [|f more IH]; intros state out enq bindings name Hs Hn Hb;
    [discriminate|].
  destruct more as [|f' more].
  - cbn [name_after_prefix] in Hn. cbn [run map].
    rewrite (handle_unbound f state bindings name Hs Hn Hb). reflexivity.
  - set (rest := f' :: more) in *.
    assert (Hn' : (if is_filler f then name_after_prefix rest else None)
                  = Some name) by exact Hn.
    destruct (is_filler f) eqn:Hf; [|discriminate].
    cbn [run map]. rewrite (handle_filler f state bindings Hf).
    rewrite (IH state out (enq ++ [Lexer.text f]) bindings name Hs Hn' Hb).
    rewrite <- !app_assoc. reflexivity.
Qed.

(** A placeholder whose name is not bound is copied as it is written. *)
Lemma run_placeholder_unbound ph out enq bindings name :
  placeholder_name ph = Some name ->
  bindings !! name = None ->
  run ph CHILLIN out enq bindings
  = Returns (CHILLIN, (out ++ enq) ++ map Lexer.text ph, []).
Proof.
  destruct ph as [|p more]; [discriminate|].
  cbn [placeholder_name]. intros Hn Hb.
  destruct (is_python p) eqn:Hpy.
  - destruct more; [|discriminate]. cbn [run map].
    rewrite (handle_python_unbound p bindings name Hn Hb). reflexivity.
  - destruct (is_prefix p) eqn:Hpre; [|discriminate].
    destruct (handle_prefix p bindings Hpre) as (state & Hs & Hh).
    cbn [run map]. rewrite Hh.
    rewrite (run_name_unbound more state out (enq ++ [Lexer.text p])
               bindings name Hs Hn Hb).
    rewrite <- !app_assoc. reflexivity.
Qed.


(** A quoted string read outside a placeholder goes to the output as it
    is, whatever is bound. *)
Lemma handle_quoted_string q bindings :
  kind q = Some "quoted string" ->
  _handle_token q CHILLIN bindings = Returns (FLUSH, Lexer.text q, CHILLIN).
Proof. unfold _handle_token. intros ->. reflexivity. Qed.


(** *** The lexer on a quoted string *)

Lemma rmatch_Alt r1 r2 g s c k :
  rmatch (Alt r1 r2) g s c k
  = match rmatch r1 g s c k with
    | Some res => Some res
    | None => rmatch r2 (g + ngroups r1) s c k
    end.
Proof. reflexivity. Qed.

(** [[^']*] reads up to the next quote when the rest of the pattern agrees. *)
Lemma star_not_quote g body : forall n tail c k r,
  no_quote body = true ->
  String.length body < n ->
  k (String quote tail) c = Some r ->
  repeat_loop (rmatch (Class true [CChar quote]) g) n
              (body +:+ String quote tail) c k = Some r.
Proof.
  induction body as [|x body IH]; intros n tail c k r Hq Hn Hk;
    (destruct n as [|n]; [cbn [String.length] in Hn; lia|]).
  - rewrite str_app_empty_l. cbn [repeat_loop rmatch].
    replace (class_matches true [CChar quote] quote) with false by reflexivity.
    exact Hk.
  - cbn [no_quote] in Hq. apply andb_true_iff in Hq as [Hx Hq].
    rewrite str_app_cons. cbn [repeat_loop rmatch].
    replace (class_matches true [CChar quote] x) with true
      by (unfold class_matches; cbn [existsb item_matches];
          rewrite orb_false_r; destruct (Ascii.eqb x quote);
          [discriminate | reflexivity]).
    cbn [String.length].
    replace (String.length (body +:+ String quote tail)
             <? S (String.length (body +:+ String quote tail)))
      with true by (symmetry; apply Nat.ltb_lt; lia).
    assert (Hn' : String.length body < n) by (cbn [String.length] in Hn; lia).
    pose proof (IH n tail c k r Hq Hn' Hk) as E. cbn [rmatch] in E.
    rewrite E. reflexivity.
Qed.

(** The pattern ['[^']*'] matches all of a quoted string without a quote
    inside. *)
Lemma quoted_string_match body c k r :
  no_quote body = true ->
  k "" (<[0 := Some (quoted body)]> c) = Some r ->
  rmatch (_regex _lexer_singleton) 0 (quoted body) c k = Some r.
Proof.
  intros Hq Hk.
  change (_regex _lexer_singleton)
    with (Alt (Group (Seq (Lit quote)
                          (Seq (Star (Class true [CChar quote])) (Lit quote))))
              (_combine_patterns (map snd (tl _token_patterns)))).
  rewrite rmatch_Alt.
  assert (H : rmatch (Group (Seq (Lit quote)
                               (Seq (Star (Class true [CChar quote])) (Lit quote))))
                     0 (quoted body) c k = Some r).
  { unfold quoted. cbn [rmatch ngroups Nat.add].
    replace (Ascii.eqb quote quote) with true by reflexivity.
    apply (star_not_quote 1);
      [exact Hq | rewrite str_length_app; lia |].
    cbv beta iota. replace (Ascii.eqb quote quote) with true by reflexivity.
    cbn [String.length]. rewrite Nat.sub_0_r.
    change (Str.first (S (String.length (body +:+ String quote "")))
                      (String quote (body +:+ String quote "")))
      with (Str.first (String.length (quoted body)) (quoted body)).
    rewrite first_all. exact Hk. }
  rewrite H. reflexivity.
Qed.

(** A statement that is one quoted string is one token. *)
Lemma quoted_string_token body :
  no_quote body = true ->
  _tokens (quoted body)
  = Yield (mkToken (Some "quoted string") (quoted body) []
                   (0, String.length (quoted body))) Done.
Proof.
  intros Hq. unfold _tokens, tokens.
  set (text := quoted body).
  assert (Hlen : String.length text = S (String.length (body +:+ String quote "")))
    by reflexivity.
  rewrite Hlen at 1. rewrite tokens_loop_eq, Hlen. cbn [Nat.eqb Nat.ltb Nat.leb negb].
  rewrite <- Hlen.
  change (search (_regex _lexer_singleton) text 0 (String.length text))
    with (search (_regex _lexer_singleton) ("" +:+ text) (String.length "")
                 (String.length ("" +:+ text))).
  rewrite search_at, search_from_eq.
  rewrite (quoted_string_match body _ _
             ("", <[0 := Some text]>
                    (replicate (ngroups (_regex _lexer_singleton)) None)) Hq eq_refl).
  cbn [m_start m_end m_groups String.length Nat.eqb negb].
  rewrite Nat.sub_0_r, tokens_loop_end. reflexivity.
Qed.


(** [_handle_token] returns or raises. *)
Lemma handle_decides t state bindings :
  _handle_token t state bindings <> Diverges.
Proof.
  unfold _handle_token, with_text, length_text, only_group, len.
  repeat case_match; try discriminate;
    match goal with
    | H : to_sql _ = Diverges |- _ => destruct (EncodeFacts.to_sql_decides _ H)
    end.
Qed.

Lemma run_decides toks : forall state out enq bindings,
  run toks state out enq bindings <> Diverges.
Proof.
  induction toks as [|t ts IH]; intros state out enq bindings; cbn [run];
    [discriminate|].
  pose proof (handle_decides t state bindings) as H.
  destruct (_handle_token t state bindings) as [[[op part] state']|e|];
    [|discriminate|congruence].
  destruct op; apply IH.
Qed.


End ParserFacts.

(** ** Substitution *)

Module ReplaceTheorems.

Import Re Lexer Encode Sqlbindarray Props StrFacts ParserFacts.

(** [replace] returns or raises: the lexer of the package always stops. *)
Lemma replace_decides text (bindings : gmap string value) :
  replace text bindings <> Diverges.
Proof.
  unfold replace. destruct (_tokens_total text) as (toks & -> & _).
  rewrite replace_loop_yields.
  pose proof (run_decides toks CHILLIN [] [] bindings) as H.
  destruct (run toks CHILLIN [] [] bindings) as [[[st out] enq]|e|];
    [discriminate | discriminate | congruence].
Qed.

(** C5 (confirmed): for every statement whose tokens include no
    value prefix, no length prefix and no python-style placeholder, and for
    every bindings, [replace] returns the statement unchanged. *)
Theorem replace_identity_without_placeholders text (bindings : gmap string value) :
  forallb plain (yielded (_tokens text)) = true ->
  replace text bindings = Returns text.
Proof.
  intros Hplain. unfold replace.
  destruct (_tokens_total text) as (toks & Htoks & Hjoin).
  rewrite Htoks in *. rewrite LexerTheorems.yielded_yields in Hplain.
  rewrite replace_loop_yields.
  destruct (run_plain toks [] [] bindings Hplain) as (out & enq & -> & Hout).
  cbn [replace_loop]. rewrite Hout, Hjoin. reflexivity.
Qed.

(** An earlier length placeholder fails first: the template ["#:x ::"] has
    a value prefix followed by another prefix, yet with [x] bound to 5 the
    error is that of [len]. *)
Example length_error_comes_first :
  replace "#:x ::" {[ "x" := VInt 5 ]} = Raises LengthNotSupported.
Proof. vm_compute. reflexivity. Qed.

(** C6 (confirmed): a placeholder whose name is not bound -- a python-style
    token, or a prefix, any comments and whitespace, and a word or quoted
    identifier -- never makes [replace] fail: the loop goes on in the
    default state with the text of the placeholder's tokens, prefix
    included, put out behind what was enqueued.  In particular
    [replace "select :missing" {}] is ["select :missing"]. *)
Theorem unbound_placeholder_passes_through
    text (bindings : gmap string value) pre ph rest out enq name :
  _tokens text = yields (pre ++ ph) rest ->
  run pre CHILLIN [] [] bindings = Returns (CHILLIN, out, enq) ->
  placeholder_name ph = Some name ->
  bindings !! name = None ->
  replace text bindings
  = replace_loop rest CHILLIN ((out ++ enq) ++ map Lexer.text ph) [] bindings
  /\ replace "select :missing" ∅ = Returns "select :missing".
Proof.
  intros Htoks Hpre Hname Hunbound. split; [|vm_compute; reflexivity].
  unfold replace. rewrite Htoks, yields_app, replace_loop_yields, Hpre.
  rewrite replace_loop_yields.
  rewrite (run_placeholder_unbound ph out enq bindings name Hname Hunbound).
  reflexivity.
Qed.


(** C10 (confirmed): a quoted string token read while no parameter name is
    awaited goes to the output as it is, behind what was enqueued, whatever
    the bindings; what looks like a placeholder between the quotes is not
    replaced. *)
Theorem quoted_string_passes_through
    text (bindings : gmap string value) pre q rest out enq :
  _tokens text = yields (pre ++ [q]) rest ->
  run pre CHILLIN [] [] bindings = Returns (CHILLIN, out, enq) ->
  kind q = Some "quoted string" ->
  _handle_token q CHILLIN bindings = Returns (FLUSH, Lexer.text q, CHILLIN)
  /\ replace text bindings
     = replace_loop rest CHILLIN ((out ++ enq) ++ [Lexer.text q]) [] bindings
  /\ (forall body, no_quote body = true ->
         replace (quoted body) bindings = Returns (quoted body))
  /\ replace "select ':name'" {[ "name" := VInt 5 ]}
     = Returns "select ':name'".
Proof.
  intros Htoks Hpre Hq.
  split; [apply handle_quoted_string, Hq|].
  split; [|split; [|vm_compute; reflexivity]].
  - unfold replace. rewrite Htoks, yields_app, replace_loop_yields, Hpre.
    cbn [yields replace_loop]. rewrite (handle_quoted_string q bindings Hq).
    reflexivity.
  - intros body Hbody. unfold replace.
    rewrite (quoted_string_token body Hbody). cbn [replace_loop].
    rewrite handle_quoted_string by reflexivity.
    cbn [app Str.join_empty Lexer.text]. rewrite str_app_empty_r. reflexivity.
Qed.



(** C1 (code defect): for the template ["select * from t where id = :x"]
    with [x] bound to 5, [replace] returns ["select * from t where id =5"]:
    the value takes the place of the prefix and the name, but the space
    before the prefix, enqueued like the prefix, is discarded with it.
    On the tokens of [" :x"], whatever was enqueued before is lost too. *)
Theorem replace_value_drops_space_before :
  replace "select * from t where id = :x" {[ "x" := VInt 5 ]}
  = Returns "select * from t where id =5"
  /\ yielded (_tokens " :x")
     = [mkToken (Some "whitespace") " " [] (0, 1);
        mkToken (Some "named parameter prefix") ":" [] (1, 2);
        mkToken (Some "word") "x" [] (2, 3)]
  /\ (forall out enq,
        run (yielded (_tokens " :x")) CHILLIN out enq {[ "x" := VInt 5 ]}
        = Returns (CHILLIN, out ++ ["5"], [])).
Proof.
  split; [vm_compute; reflexivity|]. split; [vm_compute; reflexivity|].
  intros out enq.
  change (yielded (_tokens " :x"))
    with [mkToken (Some "whitespace") " " [] (0, 1);
          mkToken (Some "named parameter prefix") ":" [] (1, 2);
          mkToken (Some "word") "x" [] (2, 3)].
  cbn [run].
  replace (_handle_token (mkToken (Some "whitespace") " " [] (0, 1)) CHILLIN
                         {[ "x" := VInt 5 ]})
    with (Returns (PUSH, " ", CHILLIN) : outcome transition)
    by (vm_compute; reflexivity).
  replace (_handle_token (mkToken (Some "named parameter prefix") ":" [] (1, 2))
                         CHILLIN {[ "x" := VInt 5 ]})
    with (Returns (PUSH, ":", IN_PARAMETER) : outcome transition)
    by (vm_compute; reflexivity).
  replace (_handle_token (mkToken (Some "word") "x" [] (2, 3)) IN_PARAMETER
                         {[ "x" := VInt 5 ]})
    with (Returns (EMIT, "5", CHILLIN) : outcome transition)
    by (vm_compute; reflexivity).
  reflexivity.
Qed.

(** C2 (code defect): for the template ["select #:ids"] with [ids] bound
    to the list [1, 2, 3], [replace] returns ["select3"]: the length is the
    number of elements, but the space before the prefix is discarded.  The
    length itself is the number of elements of a list and the number of
    characters of a string. *)
Theorem replace_length_drops_space_before :
  replace "select #:ids" {[ "ids" := VList [VInt 1; VInt 2; VInt 3] ]}
  = Returns "select3"
  /\ (forall l, length_text (VList l) = Returns (Str.of_nat (length l)))
  /\ (forall s, length_text (VStr s) = Returns (Str.of_nat (String.length s)))
  /\ replace "select(#:ids,#:name)"
        {[ "ids" := VList [VInt 1; VInt 2; VInt 3]; "name" := VStr "abcd" ]}
     = Returns "select(3,4)".
Proof.
  split; [vm_compute; reflexivity|].
  split; [reflexivity|]. split; [reflexivity|]. vm_compute. reflexivity.
Qed.


End ReplaceTheorems.

Module ReplaceWitnesses.

Import Re Lexer Encode Sqlbindarray Props ReplaceTheorems EncodeTheorems.

Lemma replace_identity_without_placeholders_witness :
  forallb plain (yielded (_tokens "select 'a' from t -- hi")) = true
  /\ replace "select 'a' from t -- hi" {[ "a" := VInt 5 ]}
     = Returns "select 'a' from t -- hi".
Proof.
  split; [vm_compute; reflexivity|].
  apply (replace_identity_without_placeholders "select 'a' from t -- hi").
  vm_compute. reflexivity.
Defined.

Lemma unbound_placeholder_passes_through_witness :
  replace "a#: /* c */ missing" {[ "x" := VInt 1 ]}
  = Returns "a#: /* c */ missing".
Proof.
  refine (eq_trans
    (proj1 (unbound_placeholder_passes_through
       "a#: /* c */ missing" {[ "x" := VInt 1 ]}
       [mkToken (Some "word") "a" [] (0, 1)]
       [mkToken (Some "named parameter length prefix") "#:" [] (1, 3);
        mkToken (Some "whitespace") " " [] (3, 4);
        mkToken (Some "block comment") "/* c */" [] (4, 11);
        mkToken (Some "whitespace") " " [] (11, 12);
        mkToken (Some "word") "missing" [] (12, 19)]
       Done ["a"] [] "missing" _ _ _ _)) _);
    vm_compute; reflexivity.
Defined.


Lemma quoted_string_passes_through_witness :
  replace "'it :x'" {[ "x" := VInt 5 ]} = Returns "'it :x'".
Proof.
  refine (eq_trans
    (proj1 (proj2 (quoted_string_passes_through
       "'it :x'" {[ "x" := VInt 5 ]} []
       (mkToken (Some "quoted string") "'it :x'" [] (0, 7))
       Done [] [] _ _ _))) _);
    vm_compute; reflexivity.
Defined.

Lemma to_sql_string_round_trip_witness :
  to_sql (VStr "O'Brien") = Returns "'O''Brien'"
  /\ decode "'O''Brien'" = Some "O'Brien"
  /\ to_sql (VStr "abc") = Returns "'abc'".
Proof.
  split; [exact (proj1 (to_sql_string_round_trip "O'Brien"))|].
  split; [exact (proj1 (proj2 (to_sql_string_round_trip "O'Brien")))|].
  apply (proj2 (proj2 (to_sql_string_round_trip "abc"))).
  reflexivity.
Defined.


End ReplaceWitnesses.

(** ** Further properties of the encoder *)

Module EncodeMore.

Import Encode Sqlbindarray Props Shapes StrFacts EncodeFacts.










(** X2: Two strings with the same literal are the same string. *)
Theorem to_sql_string_injective (s1 s2 : string) :
  to_sql (VStr s1) = to_sql (VStr s2) -> s1 = s2.
Proof.
  assert (E : forall s, to_sql (VStr s) = Returns (quoted (doubled s))).
  { intros s. rewrite to_sql_str, replace_quote_doubled. reflexivity. }
  rewrite !E. unfold quoted. intros H. injection H as H.
  pose proof (collapse_doubled s1) as H1. rewrite H in H1.
  rewrite collapse_doubled in H1. congruence.
Qed.

End EncodeMore.

(** ** Further properties of the lexer *)

Module LexerMore.

Import Re Lexer Props Shapes StrFacts ReFacts LexerFacts.

Lemma always_set_lt r : forall i, always_set r i = true -> i < ngroups r.
Proof.
  induction r as [|a|neg items|r1 IH1 r2 IH2|r1 IH1 r2 IH2|r1 IH1|r1 IH1|r1 IH1|];
    intros i H; cbn [always_set ngroups] in *; try discriminate.
  - destruct (i <? ngroups r1) eqn:Hi.
    + apply IH1 in H. lia.
    + apply Nat.ltb_ge in Hi. apply IH2 in H. lia.
  - auto.
  - destruct i as [|i]; [lia|]. apply IH1 in H. lia.
Qed.

Lemma is_set_lt (c : list (option string)) j :
  is_set (c !! j) = true -> j < length c.
Proof.
  intros H. apply lookup_lt_is_Some.
  destruct (c !! j); [eauto | discriminate].
Qed.

Section RepeatKeeps.

Variable body : string -> list (option string) -> cont
                -> option (string * list (option string)).
Hypothesis body_keeps : forall s c k res,
  body s c k = Some res ->
  exists s' c',
    k s' c' = Some res
    /\ length c' = length c
    /\ (forall j, is_set (c !! j) = true -> is_set (c' !! j) = true).

Lemma repeat_loop_keeps fuel : forall s c k res,
  repeat_loop body fuel s c k = Some res ->
  exists s' c',
    k s' c' = Some res
    /\ length c' = length c
    /\ (forall j, is_set (c !! j) = true -> is_set (c' !! j) = true).
Proof.
  induction fuel as [|fuel IH]; intros s c k res H; cbn [repeat_loop] in H.
  - exists s, c. auto.
  - destruct (body s c _) as [r|] eqn:Hb.
    + injection H as ->.
      apply body_keeps in Hb as (s' & c' & Hk & Hlen & Hmono).
      destruct (_ <? _).
      * apply IH in Hk as (s2 & c2 & Hk & Hlen2 & Hmono2).
        exists s2, c2. split; [exact Hk|]. split; [congruence|]. auto.
      * exists s', c'. auto.
    + exists s, c. auto.
Qed.

End RepeatKeeps.

(** A match sets the groups that always take part and unsets none. *)
Lemma rmatch_sets r : forall g s c k res,
  rmatch r g s c k = Some res ->
  exists s' c',
    k s' c' = Some res
    /\ length c' = length c
    /\ (forall j, is_set (c !! j) = true -> is_set (c' !! j) = true)
    /\ (forall i, always_set r i = true -> g + i < length c ->
                  is_set (c' !! (g + i)) = true).
Proof.
  induction r as [|a|neg items|r1 IH1 r2 IH2|r1 IH1 r2 IH2|r1 IH1|r1 IH1|r1 IH1|];
    intros g s c k res H; cbn [rmatch always_set] in *.
  - exists s, c. repeat split; auto; discriminate.
  - destruct s as [|b s']; [discriminate|].
    destruct (Ascii.eqb a b); [|discriminate].
    exists s', c. repeat split; auto; discriminate.
  - destruct s as [|b s']; [discriminate|].
    destruct (class_matches neg items b); [|discriminate].
    exists s', c. repeat split; auto; discriminate.
  - apply IH1 in H as (s1 & c1 & Hk & Hlen1 & Hmono1 & Hset1).
    apply IH2 in Hk as (s2 & c2 & Hk & Hlen2 & Hmono2 & Hset2).
    exists s2, c2. split; [exact Hk|]. split; [congruence|].
    split; [auto|].
    intros i Hi Hb. destruct (i <? ngroups r1) eqn:Hlt.
    + auto.
    + apply Nat.ltb_ge in Hlt.
      replace (g + i) with (g + ngroups r1 + (i - ngroups r1)) by lia.
      apply Hset2; [exact Hi | lia].
  - destruct (rmatch r1 g s c k) as [r|] eqn:H1.
    + injection H as ->.
      apply IH1 in H1 as (s1 & c1 & Hk & Hlen1 & Hmono1 & _).
      exists s1, c1. repeat split; auto; discriminate.
    + apply IH2 in H as (s1 & c1 & Hk & Hlen1 & Hmono1 & _).
      exists s1, c1. repeat split; auto; discriminate.
  - eapply repeat_loop_keeps in H as (s1 & c1 & Hk & Hlen1 & Hmono1).
    + exists s1, c1. repeat split; auto; discriminate.
    + intros s0 c0 k0 res0 H0.
      apply IH1 in H0 as (s1 & c1 & ? & ? & ? & _). eauto.
  - apply IH1 in H as (s1 & c1 & Hk & Hlen1 & Hmono1 & Hset1).
    eapply repeat_loop_keeps in Hk as (s2 & c2 & Hk & Hlen2 & Hmono2).
    + exists s2, c2. split; [exact Hk|]. split; [congruence|].
      split; auto.
    + intros s0 c0 k0 res0 H0.
      apply IH1 in H0 as (s3 & c3 & ? & ? & ? & _). eauto.
  - apply IH1 in H as (s1 & c1 & Hk & Hlen1 & Hmono1 & Hset1).
    eexists s1, _. split; [exact Hk|]. split; [|split].
    + rewrite length_insert. exact Hlen1.
    + intros j Hj. destruct (decide (j = g)) as [->|Hne].
      * rewrite list_lookup_insert_eq; [reflexivity|].
        rewrite Hlen1. apply is_set_lt, Hj.
      * rewrite list_lookup_insert_ne by congruence. auto.
    + intros [|i] Hi Hb.
      * rewrite Nat.add_0_r.
        rewrite list_lookup_insert_eq; [reflexivity | lia].
      * rewrite list_lookup_insert_ne by lia.
        replace (g + S i) with (S g + i) by lia. apply Hset1; [exact Hi | lia].
  - exists s, c.
    destruct s as [|b s']; [repeat split; auto; discriminate|].
    destruct b as [[] [] [] [] [] [] [] []]; try discriminate;
      destruct s'; try discriminate; repeat split; auto; discriminate.
Qed.

(** A sub-pattern in its group, matched as the last thing of a pattern. *)
Lemma group_shape pattern g s c s' c' N :
  ngroups (Group pattern) <= N ->
  (forall j, g <= j < g + N -> c !! j = Some None) ->
  rmatch (Group pattern) g s c (fun s' c' => Some (s', c')) = Some (s', c') ->
  exists pre,
    s = pre +:+ s'
    /\ c' !! g = Some (Some pre)
    /\ g + 1 + ngroups pattern <= length c'
    /\ (forall j, j < g -> c' !! j = c !! j)
    /\ (forall i, always_set pattern i = true ->
                  is_set (c' !! (g + 1 + i)) = true).
Proof.
  intros HN HcN H1. cbn [ngroups] in HN.
  assert (Hlen : g + N <= length c).
  { destruct N as [|N]; [lia|].
    assert (Hl : g + N < length c); [|lia].
    apply lookup_lt_is_Some. rewrite HcN by lia. eauto. }
  pose proof H1 as H2.
  apply group_inv in H1 as (pre & s1 & c1 & Hs & Hk & _ & Hl1 & Hfr & Hg);
    [|lia].
  injection Hk as -> ->.
  apply rmatch_sets in H2 as (s2 & c2 & Hk & Hl2 & _ & Hset).
  injection Hk as -> ->.
  exists pre. split; [exact Hs|]. split; [exact Hg|]. split; [lia|].
  split; [exact Hfr|].
  intros i Hi. pose proof (always_set_lt pattern i Hi).
  replace (g + 1 + i) with (g + S i) by lia.
  apply Hset; [exact Hi | lia].
Qed.

(** A match of the combined pattern, seen from the end of the pattern:
    which sub-pattern matched, what [matched_spec] returns, and which of
    its groups are set. *)
Lemma combine_shape token_patterns : forall g s c s' c',
  token_patterns <> [] ->
  rmatch (_combine_patterns (map snd token_patterns)) g s c
         (fun s' c' => Some (s', c')) = Some (s', c') ->
  (forall j, g <= j < g + ngroups (_combine_patterns (map snd token_patterns)) ->
             c !! j = Some None) ->
  exists name p off pre,
    In (name, p) token_patterns
    /\ s = pre +:+ s'
    /\ matched_spec (specs_from g token_patterns) c'
       = Returns (mkGroupSpec off (off + 1, off + 1 + ngroups p) name, pre)
    /\ off + 1 + ngroups p <= length c'
    /\ (forall j, j < g -> c' !! j = c !! j)
    /\ (forall i, always_set p i = true -> is_set (c' !! (off + 1 + i)) = true).
Proof.
  induction token_patterns as [|[name pattern] rest IH];
    intros g s c s' c' Hne H Hc; [congruence|].
  destruct rest as [|np rest].
  - cbn [map snd _combine_patterns] in H, Hc.
    apply (group_shape pattern g s c s' c' _ (Nat.le_refl _) Hc) in H
      as (pre & Hs & Hg & Hl & Hfr & Hset).
    exists name, pattern, g, pre. split; [left; reflexivity|].
    split; [exact Hs|]. split; [|auto].
    cbn [specs_from matched_spec group_index]. rewrite Hg. reflexivity.
  - set (rest' := np :: rest) in *.
    assert (Heq : _combine_patterns (map snd ((name, pattern) :: rest'))
                  = Alt (Group pattern) (_combine_patterns (map snd rest'))).
    { subst rest'. destruct np. reflexivity. }
    rewrite Heq in H, Hc.
    change (match rmatch (Group pattern) g s c (fun s' c' => Some (s', c')) with
            | Some res => Some res
            | None => rmatch (_combine_patterns (map snd rest'))
                             (g + ngroups (Group pattern)) s c
                             (fun s' c' => Some (s', c'))
            end = Some (s', c')) in H.
    destruct (rmatch (Group pattern) g s c _) as [r|] eqn:H1.
    + injection H as ->.
      apply (group_shape pattern g s c s' c'
               (ngroups (Alt (Group pattern)
                             (_combine_patterns (map snd rest'))))) in H1
        as (pre & Hs & Hg & Hl & Hfr & Hset);
        [|cbn [ngroups]; lia|exact Hc].
      exists name, pattern, g, pre. split; [left; reflexivity|].
      split; [exact Hs|]. split; [|auto].
      cbn [specs_from matched_spec group_index]. rewrite Hg. reflexivity.
    + cbn [ngroups] in H, Hc.
      apply IH in H as (name' & p & off & pre & Hin & Hs & Hm & Hl & Hfr & Hset).
      * exists name', p, off, pre. split; [right; exact Hin|].
        split; [exact Hs|]. split; [|split; [exact Hl|split; [|exact Hset]]].
        -- cbn [specs_from matched_spec group_index].
           rewrite Hfr by lia. rewrite Hc by lia.
           replace (g + 1 + ngroups pattern) with (g + S (ngroups pattern)) by lia.
           exact Hm.
        -- intros j Hj. apply Hfr. lia.
      * subst rest'. discriminate.
      * intros j Hj. apply Hc. lia.
Qed.

Lemma skip_zero (s : string) : Str.skip 0 s = s.
Proof. destruct s; reflexivity. Qed.

(** What [search] finds, for any set of sub-patterns that is not empty. *)
Lemma search_shape token_patterns :
  token_patterns <> [] ->
  forall s pos m,
    search_from (_combine_patterns (map snd token_patterns)) s pos = Some m ->
    exists gap pre s' name p off,
      s = gap +:+ pre +:+ s'
      /\ m_start m = pos + String.length gap
      /\ m_end m = pos + String.length gap + String.length pre
      /\ In (name, p) token_patterns
      /\ matched_spec (specs_from 0 token_patterns) (m_groups m)
         = Returns (mkGroupSpec off (off + 1, off + 1 + ngroups p) name, pre)
      /\ off + 1 + ngroups p <= length (m_groups m)
      /\ (forall i, always_set p i = true ->
                    is_set (m_groups m !! (off + 1 + i)) = true)
      /\ (forall i, i < String.length gap ->
             matches_here (_combine_patterns (map snd token_patterns))
                          (Str.skip i s) = false).
Proof.
  intros Hne.
  induction s as [|a s IH]; intros pos m H; rewrite search_from_eq in H.
  - destruct (rmatch _ _ _ _ _) as [[s' c']|] eqn:Hm; [|discriminate].
    injection H as <-.
    apply combine_shape in Hm
      as (name & p & off & pre & Hin & Hs & Hsp & Hl & _ & Hset);
      [|exact Hne|intros j Hj; apply lookup_replicate_2; lia].
    exists "", pre, s', name, p, off. cbn [m_start m_end m_groups String.length].
    rewrite str_app_empty_l.
    assert (String.length "" - String.length s' = String.length pre).
    { rewrite Hs at 1. rewrite str_length_app. lia. }
    cbn [String.length] in *.
    repeat split; auto; try lia.
  - destruct (rmatch _ _ _ _ _) as [[s' c']|] eqn:Hm.
    + injection H as <-.
      apply combine_shape in Hm
        as (name & p & off & pre & Hin & Hs & Hsp & Hl & _ & Hset);
        [|exact Hne|intros j Hj; apply lookup_replicate_2; lia].
      exists "", pre, s', name, p, off.
      cbn [m_start m_end m_groups]. rewrite str_app_empty_l.
      assert (String.length (String a s) - String.length s' = String.length pre).
      { rewrite Hs at 1. rewrite str_length_app. lia. }
      cbn [String.length] in *.
      repeat split; auto; try lia.
    + apply IH in H
        as (gap & pre & s' & name & p & off & -> & Hst & Hen & Hin & Hsp & Hl
            & Hset & Hgap).
      exists (String a gap), pre, s', name, p, off. cbn [String.length].
      split; [reflexivity|]. split; [lia|]. split; [lia|].
      split; [exact Hin|]. split; [exact Hsp|]. split; [exact Hl|].
      split; [exact Hset|].
      intros [|i] Hi.
      * rewrite skip_zero. unfold matches_here.
        rewrite Hm. reflexivity.
      * cbn [Str.skip]. apply Hgap. lia.
Qed.

(** Where [search] finds nothing, nothing matches. *)
Lemma search_none r : forall s pos,
  search_from r s pos = None ->
  forall i, i < String.length s -> matches_here r (Str.skip i s) = false.
Proof.
  induction s as [|a s IH]; intros pos H i Hi; [cbn in Hi; lia|].
  rewrite search_from_eq in H.
  destruct (rmatch _ _ _ _ _) as [[s' c']|] eqn:Hm; [discriminate|].
  destruct i as [|i].
  - rewrite skip_zero. unfold matches_here. rewrite Hm. reflexivity.
  - cbn [Str.skip]. apply (IH (S pos) H). cbn [String.length] in Hi. lia.
Qed.

Lemma skip_app_add (done rest : string) i :
  Str.skip (String.length done + i) (done +:+ rest) = Str.skip i rest.
Proof.
  induction done as [|x done IH]; [reflexivity|].
  rewrite str_app_cons. cbn [String.length Nat.add Str.skip]. exact IH.
Qed.

Lemma unmatched_from r text : forall n a,
  (forall i, i < n -> matches_here r (Str.skip (a + i) text) = false) ->
  unmatched r text a n = true.
Proof.
  induction n as [|n IH]; intros a H; [reflexivity|].
  cbn [unmatched]. rewrite <- (Nat.add_0_r a) at 1. rewrite (H 0) by lia.
  cbn [negb andb]. apply IH. intros i Hi.
  replace (S a + i) with (a + S i) by lia. apply H. lia.
Qed.

Lemma unmatched_intro r (done rest : string) n :
  (forall i, i < n -> matches_here r (Str.skip i rest) = false) ->
  unmatched r (done +:+ rest) (String.length done) n = true.
Proof.
  intros H. apply unmatched_from. intros i Hi.
  rewrite skip_app_add. apply H, Hi.
Qed.

Lemma subgroups_fit p off (gs : list (option string)) :
  off + 1 + ngroups p <= length gs ->
  (forall i, always_set p i = true -> is_set (gs !! (off + 1 + i)) = true) ->
  groups_fit p (subgroups gs (off + 1, off + 1 + ngroups p)) = true.
Proof.
  intros Hlen Hset. unfold groups_fit, subgroups. cbn [fst snd].
  replace (off + 1 + ngroups p - (off + 1)) with (ngroups p) by lia.
  apply andb_true_iff. split.
  - apply Nat.eqb_eq. rewrite length_take_le; [reflexivity|].
    rewrite length_drop. lia.
  - apply forallb_forall. intros i Hi. apply in_seq in Hi.
    rewrite lookup_take_lt by lia. rewrite lookup_drop.
    destruct (always_set p i) eqn:Ha; [|reflexivity].
    cbn [implb]. apply Hset, Ha.
Qed.

Lemma orderly_yield token_patterns text t rest :
  well_formed token_patterns t = true ->
  gap_unmatched (_combine_patterns (map snd token_patterns)) text t = true ->
  (no_match t = true ->
   match first_token rest with
   | Some t' => no_match t' = false
   | None => True
   end) ->
  orderly token_patterns text rest = true ->
  orderly token_patterns text (Yield t rest) = true.
Proof.
  unfold orderly. intros Hw Hg Hs H.
  apply andb_true_iff in H as [H Hall]. apply andb_true_iff in H as [Hr Hsp].
  cbn [raises spaced yielded forallb]. rewrite Hr, Hsp, Hall, Hw, Hg.
  cbn [andb]. rewrite !andb_true_r.
  destruct (no_match t); [|reflexivity].
  destruct rest as [|t' rest'| |]; try reflexivity.
  cbn [first_token] in Hs. rewrite (Hs eq_refl). reflexivity.
Qed.

Lemma well_formed_matched token_patterns name p t gs range :
  In (name, p) token_patterns ->
  groups_fit p gs = true ->
  well_formed token_patterns (mkToken (Some name) t gs range) = true.
Proof.
  intros Hin Hfit. unfold well_formed. cbn [kind groups].
  apply existsb_exists. exists (name, p). split; [exact Hin|].
  cbn [fst snd]. rewrite String.eqb_refl, Hfit. reflexivity.
Qed.

(** The traces of a lexer with at least one sub-pattern are orderly,
    whatever the fuel. *)
Lemma tokens_loop_orderly token_patterns :
  token_patterns <> [] ->
  forall fuel text done rest,
    text = done +:+ rest ->
    orderly token_patterns text
            (tokens_loop fuel (init token_patterns) text
                         (String.length done) (String.length text)) = true.
Proof.
  intros Hne. induction fuel as [|fuel IH]; intros text done rest Htext;
    rewrite tokens_loop_eq;
    assert (Hlt : String.length text = String.length done + String.length rest)
      by (subst text; apply str_length_app);
    (destruct (String.length done =? String.length text) eqn:Heq;
       [reflexivity|]);
    apply Nat.eqb_neq in Heq;
    (replace (String.length done <? String.length text) with true
       by (symmetry; apply Nat.ltb_lt; lia));
    cbn [negb]; [reflexivity|].
  assert (Hsearch : search (_regex (init token_patterns)) text
                           (String.length done) (String.length text)
                    = search_from (_regex (init token_patterns)) rest
                                  (String.length done)).
  { rewrite Htext. apply search_at. }
  rewrite Hsearch. cbn [_regex _specs init]. rewrite group_specs_from.
  destruct (search_from _ rest (String.length done)) as [m|] eqn:Hs.
  - pose proof Hs as Hs'.
    apply (search_shape token_patterns Hne) in Hs'
      as (gap & pre & s' & name & p & off & Hsplit & Hst & Hen & Hin & Hsp
          & Hl & Hset & Hgap).
    rewrite Hsp.
    assert (Htext' : text = (done +:+ gap +:+ pre) +:+ s').
    { rewrite Htext, Hsplit, !str_app_assoc. reflexivity. }
    pose proof (IH text (done +:+ gap +:+ pre) s' Htext') as Htail.
    rewrite !str_length_app, Nat.add_assoc, <- Hen in Htail.
    cbn [token_kind subgroup_range].
    assert (Htok : orderly token_patterns text
              (Yield (mkToken (Some name) pre
                        (subgroups (m_groups m) (off + 1, off + 1 + ngroups p))
                        (m_start m, m_end m))
                     (tokens_loop fuel (init token_patterns) text (m_end m)
                                  (String.length text))) = true).
    { apply orderly_yield; [| reflexivity | discriminate | exact Htail].
      apply (well_formed_matched token_patterns name p); [exact Hin|].
      apply subgroups_fit; assumption. }
    destruct (m_start m =? String.length done) eqn:Hgap0; cbn [negb];
      [exact Htok|].
    apply Nat.eqb_neq in Hgap0.
    apply orderly_yield; [reflexivity | | intros _; reflexivity | exact Htok].
    unfold gap_unmatched. cbn [kind input_range fst snd].
    rewrite Htext, Hst.
    replace (String.length done + String.length gap - String.length done)
      with (String.length gap) by lia.
    apply unmatched_intro. exact Hgap.
  - rewrite tokens_loop_end.
    apply orderly_yield; [reflexivity | | intros _; exact I | reflexivity].
    unfold gap_unmatched. cbn [kind input_range fst snd].
    rewrite Hlt.
    replace (String.length done + String.length rest - String.length done)
      with (String.length rest) by lia.
    rewrite Htext. apply unmatched_intro.
    apply (search_none _ rest (String.length done) Hs).
Qed.

(** Without sub-patterns the combined pattern is the empty one: it matches
    at once, and no spec claims the match. *)
Lemma tokenize_without_patterns fuel text :
  tokenize fuel text []
  = if String.length text =? 0 then Done
    else match fuel with
         | 0 => Running
         | S _ => Raise StopIteration
         end.
Proof.
  unfold tokenize, tokens. rewrite tokens_loop_eq.
  destruct (String.length text) as [|n] eqn:Hn; [reflexivity|].
  cbn [Nat.eqb Nat.ltb Nat.leb negb].
  destruct fuel as [|fuel]; [reflexivity|].
  cbn [init map _combine_patterns _regex _specs _group_specs fold_left].
  unfold search. rewrite search_from_eq. cbn [rmatch ngroups replicate].
  cbn [m_start m_groups matched_spec Nat.eqb negb]. reflexivity.
Qed.

Lemma tokenize_orderly token_patterns text fuel :
  token_patterns <> [] ->
  orderly token_patterns text (tokenize fuel text token_patterns) = true.
Proof.
  intros Hne. unfold tokenize, tokens.
  apply (tokens_loop_orderly token_patterns Hne fuel text "" text eq_refl).
Qed.

(** X3: Every token is well formed: a no-match token has no groups; any other
    has the kind of one of the sub-patterns, as many groups as that
    sub-pattern has, and none of them is [None] where the group takes part
    in every match of the sub-pattern. *)
Theorem tokens_are_well_formed token_patterns text fuel :
  forallb (well_formed token_patterns)
          (yielded (tokenize fuel text token_patterns)) = true.
Proof.
  destruct token_patterns as [|np rest].
  { rewrite tokenize_without_patterns.
    destruct (_ =? _); [reflexivity|]. destruct fuel; reflexivity. }
  pose proof (tokenize_orderly (np :: rest) text fuel ltac:(discriminate)) as H.
  unfold orderly in H. apply andb_true_iff in H as [_ H].
  rewrite forallb_forall in H. apply forallb_forall. intros t Ht.
  apply H in Ht. apply andb_true_iff in Ht as [Ht _]. exact Ht.
Qed.

(** X4: No two no-match tokens follow each other: an unmatched stretch of the
    input is one token. *)
Theorem no_match_tokens_are_maximal token_patterns text fuel :
  spaced (tokenize fuel text token_patterns) = true.
Proof.
  destruct token_patterns as [|np rest].
  { rewrite tokenize_without_patterns.
    destruct (_ =? _); [reflexivity|]. destruct fuel; reflexivity. }
  pose proof (tokenize_orderly (np :: rest) text fuel ltac:(discriminate)) as H.
  unfold orderly in H. apply andb_true_iff in H as [H _].
  apply andb_true_iff in H as [_ H]. exact H.
Qed.

(** Whether a repeat finds a match depends neither on the groups so far
    nor on what the rest of the pattern does with them. *)
Lemma repeat_loop_found
    (body body' : string -> list (option string) -> cont
                  -> option (string * list (option string))) n :
  (forall s c c' k k',
     (forall s1 c1 c1', found (k s1 c1) = found (k' s1 c1')) ->
     found (body s c k) = found (body' s c' k')) ->
  forall s c c' k k',
    (forall s1 c1 c1', found (k s1 c1) = found (k' s1 c1')) ->
    found (repeat_loop body n s c k) = found (repeat_loop body' n s c' k').
Proof.
  intros Hbody. induction n as [|n IH]; intros s c c' k k' Hk;
    cbn [repeat_loop]; [apply Hk|].
  match goal with
  | |- found match ?a with _ => _ end = found match ?b with _ => _ end =>
      assert (E : found a = found b)
  end.
  { apply Hbody. intros s1 c1 c1'.
    destruct (String.length s1 <? String.length s); [apply IH, Hk | apply Hk]. }
  match goal with
  | E : found ?a = found ?b |- _ => destruct a, b; try discriminate E
  end; [reflexivity | apply Hk].
Qed.

(** Whether a pattern matches depends neither on the index of its first
    group nor on the groups so far. *)
Lemma rmatch_found r : forall g g' s c c' k k',
  (forall s1 c1 c1', found (k s1 c1) = found (k' s1 c1')) ->
  found (rmatch r g s c k) = found (rmatch r g' s c' k').
Proof.
  induction r as [|a|neg items|r1 IH1 r2 IH2|r1 IH1 r2 IH2|r1 IH1|r1 IH1|r1 IH1|];
    intros g g' s c c' k k' Hk; cbn [rmatch].
  - apply Hk.
  - destruct s as [|b s']; [reflexivity|].
    destruct (Ascii.eqb a b); [apply Hk | reflexivity].
  - destruct s as [|b s']; [reflexivity|].
    destruct (class_matches neg items b); [apply Hk | reflexivity].
  - apply IH1. intros s1 c1 c1'. apply IH2, Hk.
  - pose proof (IH1 g g' s c c' k k' Hk) as E1.
    pose proof (IH2 (g + ngroups r1) (g' + ngroups r1) s c c' k k' Hk) as E2.
    destruct (rmatch r1 g s c k), (rmatch r1 g' s c' k');
      try discriminate E1; [reflexivity | exact E2].
  - apply repeat_loop_found; [|exact Hk].
    intros s0 c0 c0' k0 k0' Hk0. apply IH1, Hk0.
  - apply IH1. intros s1 c1 c1'. apply repeat_loop_found; [|exact Hk].
    intros s0 c0 c0' k0 k0' Hk0. apply IH1, Hk0.
  - apply IH1. intros s1 c1 c1'. apply Hk.
  - destruct s as [|b s']; [apply Hk|].
    destruct b as [[] [] [] [] [] [] [] []]; try reflexivity.
    destruct s'; [apply Hk | reflexivity].
Qed.

Lemma matches_here_found r g s c :
  found (rmatch r g s c (fun s' c' => Some (s', c'))) = matches_here r s.
Proof.
  unfold matches_here.
  rewrite (rmatch_found r g 0 s c (replicate (ngroups r) None)
             (fun s' c' => Some (s', c')) (fun s' c' => Some (s', c')))
    by reflexivity.
  destruct (rmatch r 0 s _ _); reflexivity.
Qed.

(** The combined pattern matches where one of the sub-patterns does. *)
Lemma combined_matches_here ps s :
  ps <> [] ->
  matches_here (_combine_patterns ps) s
  = existsb (fun p => matches_here p s) ps.
Proof.
  intros Hne. rewrite <- (matches_here_found _ 0 s
                            (replicate (ngroups (_combine_patterns ps)) None)).
  generalize (replicate (ngroups (_combine_patterns ps)) (@None string)).
  generalize 0 as g.
  induction ps as [|p ps IH]; [contradiction|]. intros g c.
  assert (Hp : forall k,
    (forall s1 c1, found (k s1 c1) = true) ->
    found (rmatch (Group p) g s c k) = matches_here p s).
  { intros k Hk. cbn [rmatch]. rewrite <- (matches_here_found p (S g) s c).
    apply rmatch_found. intros s1 c1 c1'. apply Hk. }
  destruct ps as [|q ps].
  - cbn [_combine_patterns existsb]. rewrite orb_false_r.
    apply Hp. reflexivity.
  - change (_combine_patterns (p :: q :: ps))
      with (Alt (Group p) (_combine_patterns (q :: ps))).
    cbn [rmatch existsb].
    pose proof (Hp (fun s' c' => Some (s', c')) ltac:(reflexivity)) as E.
    cbn [rmatch] in E.
    destruct (rmatch p (S g) s c _) as [res|].
    + rewrite <- E. reflexivity.
    + rewrite <- E. cbn [orb]. apply IH. discriminate.
Qed.

Lemma unmatched_each ps text : forall n a,
  ps <> [] ->
  unmatched (_combine_patterns ps) text a n = true ->
  unmatched_by_each ps text a n = true.
Proof.
  induction n as [|n IH]; intros a Hne H; [reflexivity|].
  cbn [unmatched unmatched_by_each] in *.
  apply andb_true_iff in H as [Hhere Hrest].
  rewrite (IH (S a) Hne Hrest), andb_true_r.
  rewrite combined_matches_here in Hhere by exact Hne.
  apply negb_true_iff in Hhere. apply forallb_forall. intros p Hp.
  apply negb_true_iff. destruct (matches_here p (Str.skip a text)) eqn:E;
    [|reflexivity].
  rewrite <- Hhere. symmetry. apply existsb_exists. exists p. auto.
Qed.

(** X5: at no offset inside a no-match token does the combined pattern
    match, nor does any of the sub-patterns on its own. *)
Theorem no_match_tokens_are_unmatched token_patterns text fuel :
  forallb (fun t =>
             gap_unmatched (_combine_patterns (map snd token_patterns)) text t
             && gap_unmatched_by_each (map snd token_patterns) text t)
          (yielded (tokenize fuel text token_patterns)) = true.
Proof.
  destruct token_patterns as [|np rest].
  { rewrite tokenize_without_patterns.
    destruct (_ =? _); [reflexivity|]. destruct fuel; reflexivity. }
  pose proof (tokenize_orderly (np :: rest) text fuel ltac:(discriminate)) as H.
  unfold orderly in H. apply andb_true_iff in H as [_ H].
  rewrite forallb_forall in H. apply forallb_forall. intros t Ht.
  apply H in Ht. apply andb_true_iff in Ht as [_ Ht].
  rewrite Ht. cbn [andb].
  unfold gap_unmatched, gap_unmatched_by_each in *.
  destruct (kind t); [reflexivity|].
  apply unmatched_each; [discriminate | exact Ht].
Qed.

(** X6: The generator raises in one case only: no sub-pattern at all and an
    input that is not empty.  In particular the [assert] of the loop, the
    index into the groups and the [next] over the specs never fail for a
    lexer with a sub-pattern. *)
Theorem tokenize_raises_iff_no_patterns token_patterns text fuel :
  raises (tokenize (S fuel) text token_patterns)
  = (length token_patterns =? 0) && negb (String.length text =? 0).
Proof.
  destruct token_patterns as [|np rest].
  - rewrite tokenize_without_patterns. cbn [length Nat.eqb andb].
    destruct (String.length text =? 0); reflexivity.
  - pose proof (tokenize_orderly (np :: rest) text (S fuel) ltac:(discriminate))
      as H.
    unfold orderly in H. apply andb_true_iff in H as [H _].
    apply andb_true_iff in H as [H _]. apply negb_true_iff in H.
    rewrite H. reflexivity.
Qed.

Lemma combined_groups_cons (np : string * regex) l :
  ngroups (_combine_patterns (map snd (np :: l)))
  = S (ngroups (snd np)) + ngroups (_combine_patterns (map snd l)).
Proof.
  destruct l as [|np' l]; cbn [map _combine_patterns ngroups]; lia.
Qed.

Lemma specs_from_lookup token_patterns : forall g i spec,
  specs_from g token_patterns !! i = Some spec ->
  exists name p,
    token_patterns !! i = Some (name, p)
    /\ token_kind spec = name
    /\ group_index spec
       = g + ngroups (_combine_patterns (map snd (take i token_patterns)))
    /\ subgroup_range spec
       = (group_index spec + 1, group_index spec + 1 + ngroups p)
    /\ group_index spec + 1 + ngroups p
       <= g + ngroups (_combine_patterns (map snd token_patterns)).
Proof.
  induction token_patterns as [|[name p] rest IH]; intros g i spec H;
    [discriminate|].
  rewrite combined_groups_cons. cbn [specs_from snd] in *.
  destruct i as [|i].
  - injection H as <-. exists name, p. cbn. repeat split; lia.
  - cbn [lookup list_lookup] in H.
    apply IH in H as (name' & p' & Hl & Hk & Hg & Hr & Hle).
    exists name', p'. cbn [take]. rewrite combined_groups_cons. cbn [snd].
    repeat split; auto; lia.
Qed.

(** X7: The spec of the [i]-th sub-pattern: its name, the number of groups of
    the sub-patterns before it as the index of its own group, the groups of
    the sub-pattern right behind; all within the groups of the combined
    pattern. *)
Theorem group_specs_layout token_patterns i spec :
  _group_specs token_patterns !! i = Some spec ->
  exists name p,
    token_patterns !! i = Some (name, p)
    /\ token_kind spec = name
    /\ group_index spec
       = ngroups (_combine_patterns (map snd (take i token_patterns)))
    /\ subgroup_range spec
       = (group_index spec + 1, group_index spec + 1 + ngroups p)
    /\ snd (subgroup_range spec)
       <= ngroups (_combine_patterns (map snd token_patterns)).
Proof.
  rewrite group_specs_from. intros H.
  apply specs_from_lookup in H as (name & p & Hl & Hk & Hg & Hr & Hle).
  exists name, p. rewrite Hr. cbn [snd]. repeat split; auto.
Qed.

End LexerMore.

(** ** Further properties of the substitution *)

Module ReplaceMore.

Import Re Lexer Encode Sqlbindarray Props Shapes StrFacts LexerFacts
       EncodeFacts ParserFacts.

(** The groups of the tokens of the package's lexer. *)
Lemma sql_well_formed_groups t :
  well_formed _token_patterns t = true -> sql_groups_ok t = true.
Proof.
  unfold well_formed, sql_groups_ok. intros H.
  destruct (kind t) as [k|] eqn:Hk; [|reflexivity].
  apply existsb_exists in H as ([name p] & Hin & Hnp). cbn [fst snd] in Hnp.
  apply andb_true_iff in Hnp as [Hname Hfit].
  apply String.eqb_eq in Hname. subst k.
  unfold _token_patterns in Hin. cbn [In] in Hin.
  repeat (destruct Hin as [Hin|Hin];
          [injection Hin as <- <-; try reflexivity;
           unfold groups_fit in Hfit; cbn in Hfit;
           destruct (groups t) as [|[g|] [|? ?]]; cbn in Hfit;
           try discriminate; reflexivity|]).
  contradiction.
Qed.

Lemma _tokens_well_formed text :
  forallb sql_groups_ok (yielded (_tokens text)) = true.
Proof.
  pose proof (LexerMore.tokenize_orderly _token_patterns text
                (String.length text) ltac:(discriminate)) as H.
  unfold orderly in H. apply andb_true_iff in H as [_ H].
  rewrite forallb_forall in H. apply forallb_forall. intros t Ht.
  apply H in Ht. apply andb_true_iff in Ht as [Ht _].
  apply sql_well_formed_groups, Ht.
Qed.



Lemma only_group_ok t :
  sql_groups_ok t = true ->
  kind_is (kind t) "quoted identifier"
  || kind_is (kind t) "python named parameter"
  || kind_is (kind t) "python named parameter length" = true ->
  exists name, groups t = [Some name] /\ only_group (groups t) = Returns name.
Proof.
  unfold sql_groups_ok. intros H Hk. rewrite Hk in H.
  destruct (groups t) as [|[g|] [|? ?]]; try discriminate.
  exists g. split; reflexivity.
Qed.






Lemma is_bound_false bindings name :
  is_bound bindings name = false -> bindings !! name = None.
Proof. unfold is_bound. destruct (bindings !! name); [discriminate | reflexivity]. Qed.

(** A token that names nothing bound is enqueued or put out as it is,
    unless it is refused after a prefix. *)
Lemma handle_names_unbound t state bindings :
  sql_groups_ok t = true ->
  names_bound bindings t = false ->
  _handle_token t state bindings = Raises MalformedPlaceholder
  \/ exists op state',
       op <> EMIT
       /\ _handle_token t state bindings = Returns (op, Lexer.text t, state').
Proof.
  intros Hok Hnb. unfold names_bound in Hnb.
  apply orb_false_iff in Hnb as [Htext Hgroups].
  apply is_bound_false in Htext.
  assert (Hgroup : forall name, groups t = [Some name] -> bindings !! name = None).
  { intros name Hg. rewrite Hg in Hgroups. cbn [existsb] in Hgroups.
    rewrite orb_false_r in Hgroups. apply is_bound_false, Hgroups. }
  unfold _handle_token.
  destruct (_ || _ || kind_is (kind t) "whitespace");
    [right; exists PUSH, state; split; [discriminate | reflexivity]|].
  destruct state.
  - destruct (kind_is (kind t) "python named parameter") eqn:K1.
    { destruct (only_group_ok t Hok) as (name & Hg & ->);
        [rewrite K1, orb_true_r; reflexivity|].
      rewrite (Hgroup name Hg).
      right; exists FLUSH, CHILLIN; split; [discriminate | reflexivity]. }
    destruct (kind_is (kind t) "python named parameter length") eqn:K2.
    { destruct (only_group_ok t Hok) as (name & Hg & ->);
        [rewrite K2, orb_true_r; reflexivity|].
      rewrite (Hgroup name Hg).
      right; exists FLUSH, CHILLIN; split; [discriminate | reflexivity]. }
    destruct (kind_is (kind t) "named parameter prefix");
      [right; exists PUSH, IN_PARAMETER; split; [discriminate | reflexivity]|].
    destruct (kind_is (kind t) "named parameter length prefix");
      [right; exists PUSH, IN_PARAMETER_LENGTH
       |right; exists FLUSH, CHILLIN]; (split; [discriminate | reflexivity]).
  - destruct (kind_is (kind t) "word").
    { rewrite Htext.
      right; exists FLUSH, CHILLIN; split; [discriminate | reflexivity]. }
    destruct (kind_is (kind t) "quoted identifier") eqn:K; [|left; reflexivity].
    destruct (only_group_ok t Hok) as (name & Hg & ->);
      [rewrite K; reflexivity|].
    rewrite (Hgroup name Hg).
    right; exists FLUSH, CHILLIN; split; [discriminate | reflexivity].
  - destruct (kind_is (kind t) "word").
    { rewrite Htext.
      right; exists FLUSH, CHILLIN; split; [discriminate | reflexivity]. }
    destruct (kind_is (kind t) "quoted identifier") eqn:K; [|left; reflexivity].
    destruct (only_group_ok t Hok) as (name & Hg & ->);
      [rewrite K; reflexivity|].
    rewrite (Hgroup name Hg).
    right; exists FLUSH, CHILLIN; split; [discriminate | reflexivity].
Qed.

Lemma run_names_unbound bindings toks : forall state out enq,
  forallb sql_groups_ok toks = true ->
  forallb (fun t => negb (names_bound bindings t)) toks = true ->
  run toks state out enq bindings = Raises MalformedPlaceholder
  \/ exists state' out' enq',
       run toks state out enq bindings = Returns (state', out', enq')
       /\ Str.join_empty (out' ++ enq')
          = Str.join_empty (out ++ enq) +:+ joined toks.
Proof.
  induction toks as [|t ts IH]; intros state out enq Hok Hnb.
  - right. exists state, out, enq. split; [reflexivity|].
    unfold joined. cbn [map Str.join_empty]. rewrite str_app_empty_r. reflexivity.
  - cbn [forallb] in Hok, Hnb.
    apply andb_true_iff in Hok as [Hok Hoks].
    apply andb_true_iff in Hnb as [Hnb Hnbs]. apply negb_true_iff in Hnb.
    cbn [run].
    destruct (handle_names_unbound t state bindings Hok Hnb)
      as [->|(op & state' & Hop & ->)]; [left; reflexivity|].
    assert (Hstep : forall out1 enq1,
      Str.join_empty (out1 ++ enq1)
      = Str.join_empty (out ++ enq) +:+ Lexer.text t ->
      run ts state' out1 enq1 bindings = Raises MalformedPlaceholder
      \/ exists state'' out' enq',
           run ts state' out1 enq1 bindings = Returns (state'', out', enq')
           /\ Str.join_empty (out' ++ enq')
              = Str.join_empty (out ++ enq) +:+ joined (t :: ts)).
    { intros out1 enq1 Hj.
      destruct (IH state' out1 enq1 Hoks Hnbs)
        as [->|(state'' & out' & enq' & -> & Hjoin)]; [left; reflexivity|].
      right. exists state'', out', enq'. split; [reflexivity|].
      rewrite Hjoin, Hj. unfold joined. cbn [map Str.join_empty].
      rewrite str_app_assoc. reflexivity. }
    destruct op; [| congruence |]; apply Hstep.
    + rewrite app_assoc, join_empty_app. cbn [Str.join_empty].
      rewrite str_app_empty_r. reflexivity.
    + rewrite app_nil_r, join_empty_app. cbn [Str.join_empty].
      rewrite str_app_empty_r. reflexivity.
Qed.

(** X9: When no token of the statement names anything bound -- neither by its
    text nor by a group -- [replace] returns the statement unchanged, or
    refuses it for a prefix that no name follows; it does nothing else. *)
Theorem replace_without_bound_names text (bindings : gmap string value) :
  forallb (fun t => negb (names_bound bindings t)) (yielded (_tokens text)) = true ->
  replace text bindings = Returns text
  \/ replace text bindings = Raises MalformedPlaceholder.
Proof.
  intros Hnb. unfold replace.
  pose proof (_tokens_well_formed text) as Hok.
  destruct (_tokens_total text) as (toks & Htoks & Hjoin).
  rewrite Htoks in *. rewrite LexerTheorems.yielded_yields in Hok, Hnb.
  rewrite replace_loop_yields.
  destruct (run_names_unbound bindings toks CHILLIN [] [] Hok Hnb)
    as [->|(state' & out' & enq' & -> & Hout)]; [right; reflexivity|].
  left. cbn [replace_loop]. rewrite Hout, Hjoin. reflexivity.
Qed.

(** The state that a prefix opens. *)
Lemma handle_prefix_state p bindings :
  is_prefix p = true ->
  _handle_token p CHILLIN bindings
  = Returns (PUSH, Lexer.text p,
             if kind_is (kind p) "named parameter prefix"
             then IN_PARAMETER else IN_PARAMETER_LENGTH).
Proof.
  unfold is_prefix, _handle_token. intros H.
  apply orb_true_iff in H as [H|H]; apply kind_is_true in H; rewrite H;
    reflexivity.
Qed.

Lemma handle_bound n state bindings name v :
  state <> CHILLIN ->
  name_of n = Some name ->
  bindings !! name = Some v ->
  _handle_token n state bindings = with_text EMIT CHILLIN (awaited state v).
Proof.
  intros Hs Hn Hb. pose proof (name_of_not_filler n name Hn) as Hf.
  unfold is_filler in Hf. unfold name_of in Hn. unfold _handle_token.
  rewrite Hf.
  destruct (kind_is (kind n) "word") eqn:Hw.
  - injection Hn as Hn. rewrite Hn, Hb.
    destruct state; [congruence | reflexivity | reflexivity].
  - destruct (kind_is (kind n) "quoted identifier") eqn:Hq; [|discriminate].
    destruct (groups n) as [|[g|] [|? ?]]; try discriminate.
    injection Hn as ->. cbn [only_group]. rewrite Hb.
    destruct state; [congruence | reflexivity | reflexivity].
Qed.

(** After a prefix: fillers, then a bound name.  The name is replaced;
    what was enqueued is dropped. *)
Lemma run_name_bound more : forall state out enq bindings name v,
  state <> CHILLIN ->
  name_after_prefix more = Some name ->
  bindings !! name = Some v ->
  run more state out enq bindings
  = match awaited state v with
    | Returns s => Returns (CHILLIN, out ++ [s], [])
    | Raises e => Raises e
    | Diverges => Diverges
    end.
Proof.
  induction more as [|f more IH]; intros state out enq bindings name v Hs Hn Hb;
    [discriminate|].
  destruct more as [|f' more].
  - cbn [name_after_prefix] in Hn. cbn [run].
    rewrite (handle_bound f state bindings name v Hs Hn Hb).
    unfold with_text. destruct (awaited state v); reflexivity.
  - set (rest := f' :: more) in *.
    assert (Hn' : (if is_filler f then name_after_prefix rest else None)
                  = Some name) by exact Hn.
    destruct (is_filler f) eqn:Hf; [|discriminate].
    cbn [run]. rewrite (handle_filler f state bindings Hf).
    apply (IH state out (enq ++ [Lexer.text f]) bindings name v Hs Hn' Hb).
Qed.

(** X10: A bound placeholder written with a prefix -- the prefix, any comments
    and whitespace, then a word or a quoted identifier -- is replaced by
    the literal of its value, or by its length after a length prefix; the
    prefix, what lies between prefix and name, and whatever was enqueued
    before the prefix do not reach the output.  If the literal or the
    length cannot be had, [replace] raises that exception. *)
Theorem bound_prefix_placeholder_replaced
    text (bindings : gmap string value) pre p more rest out enq name v :
  _tokens text = yields (pre ++ p :: more) rest ->
  run pre CHILLIN [] [] bindings = Returns (CHILLIN, out, enq) ->
  is_prefix p = true ->
  name_after_prefix more = Some name ->
  bindings !! name = Some v ->
  replace text bindings
  = match replacement p v with
    | Returns s => replace_loop rest CHILLIN (out ++ [s]) [] bindings
    | Raises e => Raises e
    | Diverges => Diverges
    end.
Proof.
  intros Htoks Hpre Hp Hname Hbound.
  unfold replace. rewrite Htoks, yields_app, replace_loop_yields, Hpre.
  rewrite replace_loop_yields. cbn [run].
  rewrite (handle_prefix_state p bindings Hp).
  unfold replacement.
  destruct (kind_is (kind p) "named parameter prefix").
  - rewrite (run_name_bound more IN_PARAMETER out (enq ++ [Lexer.text p])
               bindings name v ltac:(discriminate) Hname Hbound).
    cbn [awaited]. destruct (to_sql v); reflexivity.
  - rewrite (run_name_bound more IN_PARAMETER_LENGTH out (enq ++ [Lexer.text p])
               bindings name v ltac:(discriminate) Hname Hbound).
    cbn [awaited]. destruct (length_text v); reflexivity.
Qed.

Lemma handle_python_bound t bindings name v :
  python_name_of t = Some name ->
  bindings !! name = Some v ->
  _handle_token t CHILLIN bindings
  = with_text FLUSH CHILLIN (python_replacement t v).
Proof.
  unfold python_name_of, python_replacement. intros Hn Hb.
  destruct (is_python t) eqn:Hp; [|discriminate].
  pose proof (python_not_filler t Hp) as Hf. unfold is_filler in Hf.
  unfold _handle_token. rewrite Hf.
  destruct (groups t) as [|[g|] [|? ?]]; try discriminate.
  injection Hn as ->. cbn [only_group]. rewrite Hb.
  unfold is_python in Hp.
  destruct (kind_is (kind t) "python named parameter"); [reflexivity|].
  cbn [orb] in Hp. rewrite Hp. reflexivity.
Qed.

(** X11: A bound python-style placeholder is replaced by the literal of its
    value, or by its length, behind what was enqueued, which is kept. *)
Theorem bound_python_placeholder_replaced
    text (bindings : gmap string value) pre p rest out enq name v :
  _tokens text = yields (pre ++ [p]) rest ->
  run pre CHILLIN [] [] bindings = Returns (CHILLIN, out, enq) ->
  python_name_of p = Some name ->
  bindings !! name = Some v ->
  replace text bindings
  = match python_replacement p v with
    | Returns s => replace_loop rest CHILLIN ((out ++ enq) ++ [s]) [] bindings
    | Raises e => Raises e
    | Diverges => Diverges
    end.
Proof.
  intros Htoks Hpre Hname Hbound.
  unfold replace. rewrite Htoks, yields_app, replace_loop_yields, Hpre.
  cbn [yields replace_loop].
  rewrite (handle_python_bound p bindings name v Hname Hbound).
  unfold with_text. destruct (python_replacement p v); reflexivity.
Qed.

(** *** Statements that the lexer reads as one kind of token *)

(** One round of the loop when the combined pattern matches at the index. *)
Lemma tokens_loop_match_at self text done rest s' c' spec t fuel :
  text = done +:+ rest ->
  rest <> "" ->
  rmatch (_regex self) 0 rest (replicate (ngroups (_regex self)) None)
         (fun s' c' => Some (s', c')) = Some (s', c') ->
  matched_spec (_specs self) c' = Returns (spec, t) ->
  tokens_loop (S fuel) self text (String.length done) (String.length text)
  = Yield (mkToken (Some (token_kind spec)) t
                   (subgroups c' (subgroup_range spec))
                   (String.length done,
                    String.length done
                    + (String.length rest - String.length s')))
          (tokens_loop fuel self text
             (String.length done + (String.length rest - String.length s'))
             (String.length text)).
Proof.
  intros Htext Hrest Hm Hspec. rewrite tokens_loop_eq.
  assert (Hlt : String.length text = String.length done + String.length rest)
    by (subst text; apply str_length_app).
  assert (0 < String.length rest) by (destruct rest; [congruence | cbn; lia]).
  replace (String.length done =? String.length text) with false
    by (symmetry; apply Nat.eqb_neq; lia).
  replace (String.length done <? String.length text) with true
    by (symmetry; apply Nat.ltb_lt; lia).
  cbn [negb].
  assert (Hsearch : search (_regex self) text (String.length done)
                           (String.length text)
                    = Some (mkMatch (String.length done)
                              (String.length done
                               + (String.length rest - String.length s')) c')).
  { rewrite Htext, search_at, search_from_eq, Hm. reflexivity. }
  rewrite Hsearch. cbn [m_start m_end m_groups].
  rewrite Nat.eqb_refl, Hspec. reflexivity.
Qed.

(** ['[^']*'] at the head of a text that begins with a quoted string. *)
Lemma quoted_string_match_head body tail c k r :
  no_quote body = true ->
  k tail (<[0 := Some (quoted body)]> c) = Some r ->
  rmatch (_regex _lexer_singleton) 0 (quoted body +:+ tail) c k = Some r.
Proof.
  intros Hq Hk.
  change (_regex _lexer_singleton)
    with (Alt (Group (Seq (Lit quote)
                          (Seq (Star (Class true [CChar quote])) (Lit quote))))
              (_combine_patterns (map snd (tl _token_patterns)))).
  rewrite rmatch_Alt.
  assert (Htext : quoted body +:+ tail
                  = String quote (body +:+ String quote tail)).
  { unfold quoted. rewrite str_app_cons, str_app_assoc. reflexivity. }
  assert (H : rmatch (Group (Seq (Lit quote)
                               (Seq (Star (Class true [CChar quote])) (Lit quote))))
                     0 (quoted body +:+ tail) c k = Some r).
  { rewrite Htext. cbn [rmatch ngroups Nat.add].
    replace (Ascii.eqb quote quote) with true by reflexivity.
    apply (star_not_quote 1);
      [exact Hq | rewrite str_length_app; lia |].
    cbv beta iota. replace (Ascii.eqb quote quote) with true by reflexivity.
    rewrite <- Htext.
    replace (String.length (quoted body +:+ tail) - String.length tail)
      with (String.length (quoted body)) by (rewrite str_length_app; lia).
    rewrite first_app. exact Hk. }
  rewrite H. reflexivity.
Qed.

Lemma quoted_length body : String.length (quoted body) = S (S (String.length body)).
Proof.
  unfold quoted. cbn [String.length]. rewrite str_length_app. cbn. lia.
Qed.

(** Quoted strings one behind the other are one token each. *)
Lemma quoted_tokens_loop segs : forall done fuel,
  forallb no_quote segs = true ->
  length segs <= fuel ->
  tokens_loop fuel _lexer_singleton
              (done +:+ Str.join_empty (map quoted segs))
              (String.length done)
              (String.length (done +:+ Str.join_empty (map quoted segs)))
  = yields (quoted_tokens (String.length done) segs) Done.
Proof.
  induction segs as [|seg segs IH]; intros done fuel Hq Hfuel.
  - cbn [map Str.join_empty quoted_tokens yields].
    rewrite str_app_empty_r. apply tokens_loop_end.
  - cbn [forallb] in Hq. apply andb_true_iff in Hq as [Hseg Hsegs].
    destruct fuel as [|fuel]; [cbn [length] in Hfuel; lia|].
    cbn [map Str.join_empty quoted_tokens yields].
    set (tail := Str.join_empty (map quoted segs)).
    rewrite (tokens_loop_match_at _lexer_singleton
               (done +:+ quoted seg +:+ tail) done (quoted seg +:+ tail) tail
               (<[0 := Some (quoted seg)]>
                  (replicate (ngroups (_regex _lexer_singleton)) None))
               (mkGroupSpec 0 (1, 1) "quoted string") (quoted seg) fuel
               eq_refl);
      [| unfold quoted; discriminate
       | apply quoted_string_match_head; [exact Hseg | reflexivity]
       | reflexivity].
    replace (String.length (quoted seg +:+ tail) - String.length tail)
      with (String.length (quoted seg)) by (rewrite str_length_app; lia).
    f_equal.
    pose proof (IH (done +:+ quoted seg) fuel Hsegs
                   ltac:(cbn [length] in Hfuel; lia)) as Hrest.
    rewrite str_length_app, str_app_assoc in Hrest. exact Hrest.
Qed.

Lemma segments_no_quote s : forallb no_quote (segments s) = true.
Proof.
  induction s as [|c s IH]; [reflexivity|].
  cbn [segments]. destruct (Ascii.eqb c quote) eqn:Hc; [exact IH|].
  destruct (segments s) as [|seg segs]; cbn [forallb no_quote] in *;
    rewrite Hc; [reflexivity | exact IH].
Qed.

Lemma segments_quoted s :
  Str.join_empty (map quoted (segments s)) = quoted (doubled s).
Proof.
  induction s as [|c s IH]; [reflexivity|].
  cbn [segments doubled]. destruct (Ascii.eqb c quote) eqn:Hc.
  - cbn [map Str.join_empty]. rewrite IH.
    apply Ascii.eqb_eq in Hc. reflexivity.
  - destruct (segments s) as [|seg segs].
    + discriminate.
    + cbn [map Str.join_empty] in *. unfold quoted in *.
      rewrite !str_app_cons in *. injection IH as IH.
      f_equal. f_equal. exact IH.
Qed.

Lemma quoted_tokens_plain segs : forall i,
  forallb plain (quoted_tokens i segs) = true.
Proof. induction segs as [|seg segs IH]; intros i; [reflexivity | apply IH]. Qed.

Lemma quoted_tokens_kind segs : forall i,
  forallb (fun t => kind_is (kind t) "quoted string") (quoted_tokens i segs)
  = true.
Proof. induction segs as [|seg segs IH]; intros i; [reflexivity | apply IH]. Qed.

Lemma quoted_tokens_joined segs : forall i,
  joined (quoted_tokens i segs) = Str.join_empty (map quoted segs).
Proof.
  induction segs as [|seg segs IH]; intros i; [reflexivity|].
  unfold joined in *. cbn [quoted_tokens map Str.join_empty Lexer.text].
  rewrite IH. reflexivity.
Qed.

Lemma segments_count s : length (segments s) <= String.length (quoted (doubled s)).
Proof.
  rewrite quoted_length.
  induction s as [|c s IH]; [cbn; lia|].
  cbn [segments doubled]. destruct (Ascii.eqb c quote).
  - cbn [length String.length]. lia.
  - destruct (segments s); cbn [length String.length] in *; lia.
Qed.

(** X12: The literal that [to_sql] makes of a string is, for the lexer of the
    package, nothing but quoted strings, whatever the string holds; so
    [replace] returns the literal unchanged, whatever is bound. *)
Theorem string_literal_is_inert (s : string) (bindings : gmap string value) :
  exists lit,
    to_sql (VStr s) = Returns lit
    /\ forallb (fun t => kind_is (kind t) "quoted string") (yielded (_tokens lit))
       = true
    /\ replace lit bindings = Returns lit.
Proof.
  exists (quoted (doubled s)).
  split; [rewrite to_sql_str, replace_quote_doubled; reflexivity|].
  assert (Htoks : _tokens (quoted (doubled s))
                  = yields (quoted_tokens 0 (segments s)) Done).
  { unfold _tokens, tokens.
    pose proof (quoted_tokens_loop (segments s) ""
                  (String.length (quoted (doubled s)))
                  (segments_no_quote s) (segments_count s)) as H.
    rewrite str_app_empty_l, segments_quoted in H. exact H. }
  split.
  - rewrite Htoks, LexerTheorems.yielded_yields. apply quoted_tokens_kind.
  - unfold replace. rewrite Htoks, replace_loop_yields.
    destruct (run_plain (quoted_tokens 0 (segments s)) [] [] bindings
                (quoted_tokens_plain _ _)) as (out & enq & -> & Hout).
    cbn [replace_loop]. rewrite Hout, quoted_tokens_joined, segments_quoted.
    reflexivity.
Qed.

(** [[^\n]*] reads up to the next newline, or to the end. *)
Lemma star_no_newline g body : forall n tail c k r,
  no_newline body = true ->
  String.length body < n ->
  tail = "" \/ (exists t, tail = String newline t) ->
  k tail c = Some r ->
  repeat_loop (rmatch (Class true [CChar newline]) g) n (body +:+ tail) c k
  = Some r.
Proof.
  induction body as [|x body IH]; intros n tail c k r Hq Hn Htail Hk;
    (destruct n as [|n]; [cbn [String.length] in Hn; lia|]).
  - rewrite str_app_empty_l. cbn [repeat_loop rmatch].
    destruct Htail as [->|[t ->]]; [exact Hk|].
    replace (class_matches true [CChar newline] newline) with false
      by reflexivity.
    exact Hk.
  - cbn [no_newline] in Hq. apply andb_true_iff in Hq as [Hx Hq].
    rewrite str_app_cons. cbn [repeat_loop rmatch].
    replace (class_matches true [CChar newline] x) with true
      by (unfold class_matches; cbn [existsb item_matches];
          rewrite orb_false_r; destruct (Ascii.eqb x newline);
          [discriminate | reflexivity]).
    cbn [String.length].
    replace (String.length (body +:+ tail) <? S (String.length (body +:+ tail)))
      with true by (symmetry; apply Nat.ltb_lt; lia).
    assert (Hn' : String.length body < n) by (cbn [String.length] in Hn; lia).
    pose proof (IH n tail c k r Hq Hn' Htail Hk) as E. cbn [rmatch] in E.
    rewrite E. reflexivity.
Qed.

(** The first round of the loop when the combined pattern matches at 0. *)
Lemma tokens_first_match self text s' c' spec t fuel :
  text <> "" ->
  rmatch (_regex self) 0 text (replicate (ngroups (_regex self)) None)
         (fun s' c' => Some (s', c')) = Some (s', c') ->
  matched_spec (_specs self) c' = Returns (spec, t) ->
  tokens_loop (S fuel) self text 0 (String.length text)
  = Yield (mkToken (Some (token_kind spec)) t
                   (subgroups c' (subgroup_range spec))
                   (0, String.length text - String.length s'))
          (tokens_loop fuel self text
             (String.length text - String.length s') (String.length text)).
Proof.
  intros Hne Hm Hspec.
  exact (tokens_loop_match_at self text "" text s' c' spec t fuel
           eq_refl Hne Hm Hspec).
Qed.

(** The pattern of line comments matches a comment that runs to the end of
    the text, or to a newline that ends the text. *)
Lemma line_comment_match body tail c k r :
  no_newline body = true ->
  tail = "" \/ tail = String newline "" ->
  k "" (<[3 := Some ("--" +:+ body +:+ tail)]> c) = Some r ->
  rmatch (_regex _lexer_singleton) 0 ("--" +:+ body +:+ tail) c k = Some r.
Proof.
  intros Hq Htail Hk.
  change (_regex _lexer_singleton)
    with (Alt (Group (Seq (Lit quote)
                          (Seq (Star (Class true [CChar quote])) (Lit quote))))
           (Alt (Group (Seq (Lit dquote)
                            (Seq (Group (Star (Class true [CChar dquote])))
                                 (Lit dquote))))
            (Alt (Group (Seq (Seq (Lit "-") (Lit "-"))
                             (Seq (Star (Class true [CChar newline]))
                                  (Alt (Lit newline) Eol))))
                 (_combine_patterns
                    (map snd (tl (tl (tl _token_patterns)))))))).
  rewrite rmatch_Alt.
  replace (rmatch (Group (Seq (Lit quote)
                              (Seq (Star (Class true [CChar quote])) (Lit quote))))
                  0 ("--" +:+ body +:+ tail) c k) with (@None (string * list (option string)))
    by reflexivity.
  rewrite rmatch_Alt.
  replace (rmatch (Group (Seq (Lit dquote)
                              (Seq (Group (Star (Class true [CChar dquote])))
                                   (Lit dquote))))
                  (0 + ngroups (Group (Seq (Lit quote)
                          (Seq (Star (Class true [CChar quote])) (Lit quote)))))
                  ("--" +:+ body +:+ tail) c k)
    with (@None (string * list (option string))) by reflexivity.
  rewrite rmatch_Alt.
  set (text := "--" +:+ body +:+ tail) in *.
  assert (Htext : text = String "-" (String "-" (body +:+ tail))) by reflexivity.
  assert (H : rmatch (Group (Seq (Seq (Lit "-") (Lit "-"))
                               (Seq (Star (Class true [CChar newline]))
                                    (Alt (Lit newline) Eol))))
                     3 text c k = Some r).
  { rewrite Htext. cbn [rmatch ngroups Nat.add].
    replace (Ascii.eqb "-" "-") with true by reflexivity.
    apply (star_no_newline 4);
      [exact Hq | rewrite str_length_app; lia
       | destruct Htail as [->| ->]; [left; reflexivity | right; eauto] |].
    cbv beta iota. rewrite <- Htext.
    assert (Hfirst : Str.first (String.length text - String.length "") text
                     = text).
    { cbn [String.length]. rewrite Nat.sub_0_r. apply first_all. }
    destruct Htail as [Ht|Ht]; rewrite Ht in *; cbv beta iota.
    - rewrite Hfirst. exact Hk.
    - replace (Ascii.eqb newline newline) with true by reflexivity.
      rewrite Hfirst, Hk. reflexivity. }
  exact (eq_trans (f_equal (fun o => match o with
                                     | Some res => Some res
                                     | None => _
                                     end) H) eq_refl).
Qed.

(** A statement that is one line comment is one token. *)
Lemma line_comment_token body tail :
  no_newline body = true ->
  tail = "" \/ tail = String newline "" ->
  _tokens ("--" +:+ body +:+ tail)
  = Yield (mkToken (Some "line comment") ("--" +:+ body +:+ tail) []
                   (0, String.length ("--" +:+ body +:+ tail))) Done.
Proof.
  intros Hq Htail. unfold _tokens, tokens.
  set (text := "--" +:+ body +:+ tail).
  assert (Hlen : String.length text = S (S (String.length (body +:+ tail))))
    by reflexivity.
  rewrite Hlen at 1.
  rewrite (tokens_first_match _lexer_singleton text ""
             (<[3 := Some text]>
                (replicate (ngroups (_regex _lexer_singleton)) None))
             (mkGroupSpec 3 (4, 4) "line comment") text);
    [| intros E; apply (f_equal String.length) in E; rewrite Hlen in E;
       discriminate E
     | apply line_comment_match; [exact Hq | exact Htail | reflexivity]
     | reflexivity].
  cbn [String.length token_kind subgroup_range]. rewrite Nat.sub_0_r.
  rewrite tokens_loop_end. reflexivity.
Qed.

(** X13: A line comment that is the whole statement -- up to the end, or up to
    a newline that ends the statement -- comes back unchanged, whatever
    stands in the comment and whatever is bound. *)
Theorem line_comment_is_kept (body : string) (bindings : gmap string value) :
  no_newline body = true ->
  replace ("--" +:+ body) bindings = Returns ("--" +:+ body)
  /\ replace ("--" +:+ body +:+ String newline "") bindings
     = Returns ("--" +:+ body +:+ String newline "").
Proof.
  intros Hq.
  assert (H : forall tail, tail = "" \/ tail = String newline "" ->
    replace ("--" +:+ body +:+ tail) bindings
    = Returns ("--" +:+ body +:+ tail)).
  { intros tail Htail. unfold replace.
    rewrite (line_comment_token body tail Hq Htail). cbn [replace_loop].
    rewrite handle_filler by reflexivity.
    cbn [app Str.join_empty Lexer.text]. rewrite str_app_empty_r. reflexivity. }
  split.
  - pose proof (H "" (or_introl eq_refl)) as E.
    rewrite str_app_empty_r in E. exact E.
  - apply H. right. reflexivity.
Qed.

(** *** Bindings that the statement does not mention *)

Lemma handle_insert_unmentioned t state (bindings : gmap string value) n v :
  mentions n t = false ->
  _handle_token t state (<[n := v]> bindings) = _handle_token t state bindings.
Proof.
  intros Hm. unfold mentions in Hm. apply orb_false_iff in Hm as [Ht Hg].
  apply String.eqb_neq in Ht.
  assert (Htext : (<[n := v]> bindings) !! Lexer.text t
                  = bindings !! Lexer.text t)
    by (apply lookup_insert_ne; congruence).
  assert (Hgroup : forall name, only_group (groups t) = Returns name ->
            (<[n := v]> bindings) !! name = bindings !! name).
  { intros name Hn. destruct (groups t) as [|[g|] [|? ?]]; try discriminate.
    injection Hn as ->. cbn [existsb] in Hg. rewrite orb_false_r in Hg.
    apply String.eqb_neq in Hg. apply lookup_insert_ne. congruence. }
  unfold _handle_token.
  destruct (_ || _ || kind_is (kind t) "whitespace"); [reflexivity|].
  destruct state.
  - destruct (kind_is (kind t) "python named parameter").
    { destruct (only_group (groups t)) as [name|e|] eqn:E;
        [rewrite (Hgroup name eq_refl)|..]; reflexivity. }
    destruct (kind_is (kind t) "python named parameter length");
      [|reflexivity].
    destruct (only_group (groups t)) as [name|e|] eqn:E;
      [rewrite (Hgroup name eq_refl)|..]; reflexivity.
  - destruct (kind_is (kind t) "word"); [rewrite Htext; reflexivity|].
    destruct (kind_is (kind t) "quoted identifier"); [|reflexivity].
    destruct (only_group (groups t)) as [name|e|] eqn:E;
      [rewrite (Hgroup name eq_refl)|..]; reflexivity.
  - destruct (kind_is (kind t) "word"); [rewrite Htext; reflexivity|].
    destruct (kind_is (kind t) "quoted identifier"); [|reflexivity].
    destruct (only_group (groups t)) as [name|e|] eqn:E;
      [rewrite (Hgroup name eq_refl)|..]; reflexivity.
Qed.

Lemma run_insert_unmentioned toks (bindings : gmap string value) n v :
  forall state out enq,
    forallb (fun t => negb (mentions n t)) toks = true ->
    run toks state out enq (<[n := v]> bindings)
    = run toks state out enq bindings.
Proof.
  induction toks as [|t ts IH]; intros state out enq H; [reflexivity|].
  cbn [forallb] in H. apply andb_true_iff in H as [Ht Hts].
  apply negb_true_iff in Ht.
  cbn [run]. rewrite (handle_insert_unmentioned t state bindings n v Ht).
  destruct (_handle_token t state bindings) as [[[op part] state']|e|];
    [|reflexivity|reflexivity].
  destruct op; apply IH, Hts.
Qed.

(** X14: A binding for a name that no token of the statement mentions, neither
    as its text nor as a group, changes nothing of what [replace] does. *)
Theorem unmentioned_binding_is_ignored
    text (bindings : gmap string value) n v :
  forallb (fun t => negb (mentions n t)) (yielded (_tokens text)) = true ->
  replace text (<[n := v]> bindings) = replace text bindings.
Proof.
  intros H. unfold replace.
  destruct (_tokens_total text) as (toks & Htoks & _).
  rewrite Htoks in *. rewrite LexerTheorems.yielded_yields in H.
  rewrite !replace_loop_yields.
  rewrite (run_insert_unmentioned toks bindings n v CHILLIN [] [] H).
  destruct (run toks CHILLIN [] [] bindings) as [[[st out] enq]|e|];
    reflexivity.
Qed.

(** *** Placeholders from end to end *)

(** A repeated class reads all the characters it matches, up to one it
    does not match or to the end, when the rest of the pattern agrees. *)
Lemma star_class_reads negated items g body : forall n tail c k r,
  all_chars (class_matches negated items) body = true ->
  String.length body < n ->
  tail = ""
  \/ (exists ch t, tail = String ch t /\ class_matches negated items ch = false) ->
  k tail c = Some r ->
  repeat_loop (rmatch (Class negated items) g) n (body +:+ tail) c k = Some r.
Proof.
  induction body as [|x body IH]; intros n tail c k r Hq Hn Htail Hk;
    (destruct n as [|n]; [cbn [String.length] in Hn; lia|]).
  - rewrite str_app_empty_l. cbn [repeat_loop rmatch].
    destruct Htail as [->|(ch & t & -> & Hch)]; [exact Hk|].
    rewrite Hch. exact Hk.
  - cbn [all_chars] in Hq. apply andb_true_iff in Hq as [Hx Hq].
    rewrite str_app_cons. cbn [repeat_loop rmatch]. rewrite Hx.
    cbn [String.length].
    replace (String.length (body +:+ tail) <? S (String.length (body +:+ tail)))
      with true by (symmetry; apply Nat.ltb_lt; lia).
    assert (Hn' : String.length body < n) by (cbn [String.length] in Hn; lia).
    pose proof (IH n tail c k r Hq Hn' Htail Hk) as E. cbn [rmatch] in E.
    rewrite E. reflexivity.
Qed.

(** Two tokens that make up the whole text. *)
Lemma two_tokens self text pfx rest2 c1 spec1 c2 spec2 :
  text = pfx +:+ rest2 ->
  pfx <> "" ->
  rest2 <> "" ->
  rmatch (_regex self) 0 text (replicate (ngroups (_regex self)) None)
         (fun s' c' => Some (s', c')) = Some (rest2, c1) ->
  matched_spec (_specs self) c1 = Returns (spec1, pfx) ->
  rmatch (_regex self) 0 rest2 (replicate (ngroups (_regex self)) None)
         (fun s' c' => Some (s', c')) = Some ("", c2) ->
  matched_spec (_specs self) c2 = Returns (spec2, rest2) ->
  tokens (String.length text) self text
  = Yield (mkToken (Some (token_kind spec1)) pfx
                   (subgroups c1 (subgroup_range spec1))
                   (0, String.length pfx))
      (Yield (mkToken (Some (token_kind spec2)) rest2
                      (subgroups c2 (subgroup_range spec2))
                      (String.length pfx, String.length text))
             Done).
Proof.
  intros Htext Hp Hr Hm1 Hs1 Hm2 Hs2. unfold tokens.
  assert (Hlen : String.length text = String.length pfx + String.length rest2)
    by (subst text; apply str_length_app).
  assert (0 < String.length pfx) by (destruct pfx; [congruence | cbn; lia]).
  assert (0 < String.length rest2) by (destruct rest2; [congruence | cbn; lia]).
  assert (Hn : exists n, String.length text = S (S n))
    by (exists (String.length text - 2); lia).
  destruct Hn as [n Hn]. rewrite Hn at 1.
  rewrite (tokens_first_match self text rest2 c1 spec1 pfx (S n));
    [| intros E; rewrite E in Hn; discriminate Hn | exact Hm1 | exact Hs1].
  replace (String.length text - String.length rest2)
    with (String.length pfx) by lia.
  f_equal.
  rewrite (tokens_loop_match_at self text pfx rest2 "" c2 spec2 rest2 n
             Htext Hr Hm2 Hs2).
  cbn [String.length]. rewrite Nat.sub_0_r, <- Hlen, tokens_loop_end.
  reflexivity.
Qed.

Ltac skip_alternative :=
  rewrite rmatch_Alt;
  match goal with
  | |- match rmatch ?a ?g ?s ?c ?k with _ => _ end = _ =>
      replace (rmatch a g s c k) with (@None (string * list (option string)))
        by reflexivity
  end.

Ltac take_alternative H :=
  rewrite rmatch_Alt;
  match goal with
  | |- match rmatch ?a ?g ?s ?c ?k with _ => _ end = _ =>
      replace (rmatch a g s c k) with (Some H); [reflexivity | symmetry]
  end.

Lemma first_one ch rest :
  Str.first (String.length (String ch rest) - String.length rest)
            (String ch rest) = String ch "".
Proof.
  cbn [String.length].
  replace (S (String.length rest) - String.length rest) with 1 by lia.
  destruct rest; reflexivity.
Qed.

Lemma first_two ch1 ch2 rest :
  Str.first (String.length (String ch1 (String ch2 rest)) - String.length rest)
            (String ch1 (String ch2 rest)) = String ch1 (String ch2 "").
Proof.
  cbn [String.length].
  replace (S (S (String.length rest)) - String.length rest) with 2 by lia.
  destruct rest; reflexivity.
Qed.

(** The pattern of value prefixes at the head of a text that begins with
    [:] or [@]. *)
Lemma value_prefix_match ch rest c k r :
  ch = ":"%char \/ ch = "@"%char ->
  k rest (<[5 := Some (String ch "")]> c) = Some r ->
  rmatch (_regex _lexer_singleton) 0 (String ch rest) c k = Some r.
Proof.
  intros Hch Hk.
  change (_regex _lexer_singleton)
    with (_combine_patterns (map snd _token_patterns)).
  unfold _token_patterns. cbn [map snd _combine_patterns cat lits].
  destruct Hch as [->| ->];
    do 4 skip_alternative; take_alternative r;
    cbn [rmatch ngroups Nat.add];
    match goal with
    | |- (if ?b then _ else _) = _ => replace b with true by reflexivity
    end;
    rewrite first_one; exact Hk.
Qed.

(** The pattern of length prefixes at the head of a text that begins with
    [#:] or [#@]. *)
Lemma length_prefix_match ch rest c k r :
  ch = ":"%char \/ ch = "@"%char ->
  k rest (<[6 := Some (String "#" (String ch ""))]> c) = Some r ->
  rmatch (_regex _lexer_singleton) 0 (String "#" (String ch rest)) c k = Some r.
Proof.
  intros Hch Hk.
  change (_regex _lexer_singleton)
    with (_combine_patterns (map snd _token_patterns)).
  unfold _token_patterns. cbn [map snd _combine_patterns cat lits].
  destruct Hch as [->| ->];
    do 5 skip_alternative; take_alternative r;
    cbn [rmatch ngroups Nat.add];
    repeat match goal with
    | |- context [Ascii.eqb ?a ?b] =>
        let v := eval vm_compute in (Ascii.eqb a b) in
        replace (Ascii.eqb a b) with v by reflexivity
    end;
    cbv beta iota; rewrite first_two; rewrite Hk; reflexivity.
Qed.

(** At a word character only the last two sub-patterns can match. *)
Lemma word_char_alternatives x rest c k :
  is_word x = true ->
  rmatch (_regex _lexer_singleton) 0 (String x rest) c k
  = match rmatch (Group (Plus (Class false [CWord]))) 11 (String x rest) c k with
    | Some res => Some res
    | None => rmatch (Group (Plus (Class false [CSpace]))) 12 (String x rest) c k
    end.
Proof.
  intros H.
  destruct x as [[] [] [] [] [] [] [] []];
    (vm_compute in H; discriminate H) || reflexivity.
Qed.

Lemma class_word ch : class_matches false [CWord] ch = is_word ch.
Proof. unfold class_matches. cbn [existsb item_matches xorb]. apply orb_false_r. Qed.

Lemma all_word_class name :
  all_chars is_word name = true ->
  all_chars (class_matches false [CWord]) name = true.
Proof.
  induction name as [|x name IH]; [reflexivity|].
  cbn [all_chars]. rewrite class_word. intros H.
  apply andb_true_iff in H as [-> H]. apply IH, H.
Qed.

(** [\w+] matches a word that is all of the text. *)
Lemma word_match name c k r :
  name <> "" ->
  all_chars is_word name = true ->
  k "" (<[11 := Some name]> c) = Some r ->
  rmatch (_regex _lexer_singleton) 0 name c k = Some r.
Proof.
  intros Hne Hw Hk. destruct name as [|x name]; [congruence|].
  cbn [all_chars] in Hw. apply andb_true_iff in Hw as [Hx Hw].
  rewrite (word_char_alternatives x name c k Hx).
  assert (H : rmatch (Group (Plus (Class false [CWord]))) 11 (String x name) c k
              = Some r).
  { cbn [rmatch]. rewrite class_word, Hx.
    rewrite <- (str_app_empty_r name) at 2.
    apply (star_class_reads false [CWord] 12);
      [apply all_word_class, Hw | lia | left; reflexivity |].
    cbv beta. cbn [String.length]. rewrite Nat.sub_0_r.
    change (Str.first (S (String.length name)) (String x name))
      with (Str.first (String.length (String x name)) (String x name)).
    rewrite first_all. exact Hk. }
  rewrite H. reflexivity.
Qed.

(** The pattern of quoted identifiers matches one that is all of the
    text, and its group holds what is between the quotes. *)
Lemma quoted_identifier_match body c k r :
  all_chars (class_matches true [CChar dquote]) body = true ->
  k "" (<[1 := Some (dquoted body)]> (<[2 := Some body]> c)) = Some r ->
  rmatch (_regex _lexer_singleton) 0 (dquoted body) c k = Some r.
Proof.
  intros Hq Hk.
  change (_regex _lexer_singleton)
    with (_combine_patterns (map snd _token_patterns)).
  unfold _token_patterns, dquoted. cbn [map snd _combine_patterns cat lits].
  skip_alternative. take_alternative r.
  cbn [rmatch ngroups Nat.add].
  replace (Ascii.eqb dquote dquote) with true by reflexivity.
  apply (star_class_reads true [CChar dquote] 3);
    [exact Hq | rewrite str_length_app; lia
     | right; exists dquote, ""; split; reflexivity |].
  cbv beta iota. replace (Ascii.eqb dquote dquote) with true by reflexivity.
  rewrite str_length_app.
  replace (String.length body + String.length (String dquote "")
           - String.length (String dquote "")) with (String.length body)
    by (cbn [String.length]; lia).
  rewrite first_app.
  cbn [String.length]. rewrite Nat.sub_0_r.
  change (Str.first (S (String.length (body +:+ String dquote "")))
                    (String dquote (body +:+ String dquote "")))
    with (Str.first (String.length (dquoted body)) (dquoted body)).
  rewrite first_all. exact Hk.
Qed.

Lemma replace_two_tokens text ptok ntok (bindings : gmap string value) name v :
  _tokens text = Yield ptok (Yield ntok Done) ->
  is_prefix ptok = true ->
  name_of ntok = Some name ->
  bindings !! name = Some v ->
  replace text bindings = replacement ptok v.
Proof.
  intros Htoks Hp Hn Hb. unfold replace. rewrite Htoks. cbn [replace_loop].
  rewrite (handle_prefix_state ptok bindings Hp). unfold replacement.
  destruct (kind_is (kind ptok) "named parameter prefix").
  - rewrite (handle_bound ntok IN_PARAMETER bindings name v
               ltac:(discriminate) Hn Hb).
    cbn [awaited]. destruct (to_sql v); cbn [with_text];
      [|reflexivity|reflexivity].
    cbn [app Str.join_empty]. rewrite str_app_empty_r. reflexivity.
  - rewrite (handle_bound ntok IN_PARAMETER_LENGTH bindings name v
               ltac:(discriminate) Hn Hb).
    cbn [awaited]. destruct (length_text v); cbn [with_text];
      [|reflexivity|reflexivity].
    cbn [app Str.join_empty]. rewrite str_app_empty_r. reflexivity.
Qed.

Ltac prefixed_name prefix_lemma name_lemma :=
  match goal with
  | Hb : ?bindings !! ?name = Some ?v |- replace ?text ?bindings = _ =>
      refine (eq_trans (replace_two_tokens text _ _ bindings name v _ _ _ Hb) _);
      [ unfold _tokens; eapply two_tokens;
        [ reflexivity
        | discriminate
        | try discriminate; try assumption
        | apply prefix_lemma; [auto; fail | reflexivity]
        | reflexivity
        | apply name_lemma; [try assumption.. | reflexivity]
        | reflexivity ]
      | reflexivity
      | reflexivity
      | reflexivity ]
  end.

(** X15: A prefix and a word that is bound, and nothing else: [replace] returns
    what [to_sql] returns for the value after [:] and [@], and the length
    of the value after [#:] and [#@]. *)
Theorem prefixed_word_is_replaced
    (pfx name : string) (bindings : gmap string value) v :
  In pfx [":"; "@"; "#:"; "#@"] ->
  name <> "" ->
  all_chars is_word name = true ->
  bindings !! name = Some v ->
  replace (pfx +:+ name) bindings
  = if String.eqb pfx ":" || String.eqb pfx "@" then to_sql v
    else length_text v.
Proof.
  intros Hpfx Hne Hw Hb. cbn [In] in Hpfx.
  destruct Hpfx as [<-|[<-|[<-|[<-|[]]]]].
  - prefixed_name value_prefix_match word_match.
  - prefixed_name value_prefix_match word_match.
  - prefixed_name length_prefix_match word_match.
  - prefixed_name length_prefix_match word_match.
Qed.

Lemma all_not_dquote body :
  all_chars (fun ch => negb (Ascii.eqb ch dquote)) body = true ->
  all_chars (class_matches true [CChar dquote]) body = true.
Proof.
  induction body as [|x body IH]; [reflexivity|].
  cbn [all_chars]. intros H. apply andb_true_iff in H as [Hx H].
  rewrite (IH H), andb_true_r.
  unfold class_matches. cbn [existsb item_matches]. rewrite orb_false_r.
  destruct (Ascii.eqb x dquote); [discriminate | reflexivity].
Qed.

(** X16: A prefix and a quoted identifier, and nothing else: the name looked up
    is what stands between the double quotes, whatever it is -- spaces,
    no character at all -- and [replace] returns what [to_sql] returns for
    the value, or the length of the value after a length prefix. *)
Theorem prefixed_quoted_identifier_is_replaced
    (pfx body : string) (bindings : gmap string value) v :
  In pfx [":"; "@"; "#:"; "#@"] ->
  all_chars (fun ch => negb (Ascii.eqb ch dquote)) body = true ->
  bindings !! body = Some v ->
  replace (pfx +:+ dquoted body) bindings
  = if String.eqb pfx ":" || String.eqb pfx "@" then to_sql v
    else length_text v.
Proof.
  intros Hpfx Hq Hb. apply all_not_dquote in Hq. cbn [In] in Hpfx.
  destruct Hpfx as [<-|[<-|[<-|[<-|[]]]]].
  - prefixed_name value_prefix_match quoted_identifier_match.
  - prefixed_name value_prefix_match quoted_identifier_match.
  - prefixed_name length_prefix_match quoted_identifier_match.
  - prefixed_name length_prefix_match quoted_identifier_match.
Qed.

(** The pattern of python-style placeholders matches one that is all of
    the text, and its group holds the name. *)
Lemma python_match name c k r :
  name <> "" ->
  all_chars is_word name = true ->
  k "" (<[7 := Some ("%(" +:+ name +:+ ")s")]> (<[8 := Some name]> c)) = Some r ->
  rmatch (_regex _lexer_singleton) 0 ("%(" +:+ name +:+ ")s") c k = Some r.
Proof.
  intros Hne Hw Hk. destruct name as [|x name]; [congruence|].
  cbn [all_chars] in Hw. apply andb_true_iff in Hw as [Hx Hw].
  change (_regex _lexer_singleton)
    with (_combine_patterns (map snd _token_patterns)).
  unfold _token_patterns. cbn [map snd _combine_patterns cat lits].
  set (text := "%(" +:+ String x name +:+ ")s") in *.
  assert (Htext : text = String "%" (String "(" (String x (name +:+ ")s"))))
    by reflexivity.
  do 6 skip_alternative. take_alternative r.
  rewrite Htext. cbn [rmatch ngroups Nat.add].
  replace (Ascii.eqb "%" "%") with true by reflexivity.
  replace (Ascii.eqb "(" "(") with true by reflexivity.
  rewrite class_word, Hx.
  apply (star_class_reads false [CWord] 9);
    [apply all_word_class, Hw | rewrite str_length_app; lia
     | right; exists ")"%char, "s"; split; reflexivity |].
  cbv beta iota.
  replace (Ascii.eqb ")" ")") with true by reflexivity.
  replace (Ascii.eqb "s" "s") with true by reflexivity.
  rewrite <- Htext.
  assert (Hname : Str.first (String.length (String x (name +:+ ")s"))
                             - String.length ")s")
                            (String x (name +:+ ")s")) = String x name).
  { rewrite <- str_app_cons, str_length_app.
    replace (String.length (String x name) + String.length ")s"
             - String.length ")s") with (String.length (String x name)) by lia.
    apply first_app. }
  rewrite Hname. cbn [String.length]. rewrite Nat.sub_0_r.
  change (Str.first (S (S (S (String.length (name +:+ ")s"))))) text)
    with (Str.first (String.length text) text).
  rewrite first_all. exact Hk.
Qed.

(** The same for the python-style length placeholder. *)
Lemma python_length_match name c k r :
  name <> "" ->
  all_chars is_word name = true ->
  k "" (<[9 := Some ("#%(" +:+ name +:+ ")s")]> (<[10 := Some name]> c)) = Some r ->
  rmatch (_regex _lexer_singleton) 0 ("#%(" +:+ name +:+ ")s") c k = Some r.
Proof.
  intros Hne Hw Hk. destruct name as [|x name]; [congruence|].
  cbn [all_chars] in Hw. apply andb_true_iff in Hw as [Hx Hw].
  change (_regex _lexer_singleton)
    with (_combine_patterns (map snd _token_patterns)).
  unfold _token_patterns. cbn [map snd _combine_patterns cat lits].
  set (text := "#%(" +:+ String x name +:+ ")s") in *.
  assert (Htext : text
                  = String "#" (String "%" (String "(" (String x (name +:+ ")s")))))
    by reflexivity.
  do 7 skip_alternative. take_alternative r.
  rewrite Htext. cbn [rmatch ngroups Nat.add].
  replace (Ascii.eqb "#" "#") with true by reflexivity.
  replace (Ascii.eqb "%" "%") with true by reflexivity.
  replace (Ascii.eqb "(" "(") with true by reflexivity.
  rewrite class_word, Hx.
  apply (star_class_reads false [CWord] 11);
    [apply all_word_class, Hw | rewrite str_length_app; lia
     | right; exists ")"%char, "s"; split; reflexivity |].
  cbv beta iota.
  replace (Ascii.eqb ")" ")") with true by reflexivity.
  replace (Ascii.eqb "s" "s") with true by reflexivity.
  rewrite <- Htext.
  assert (Hname : Str.first (String.length (String x (name +:+ ")s"))
                             - String.length ")s")
                            (String x (name +:+ ")s")) = String x name).
  { rewrite <- str_app_cons, str_length_app.
    replace (String.length (String x name) + String.length ")s"
             - String.length ")s") with (String.length (String x name)) by lia.
    apply first_app. }
  rewrite Hname. cbn [String.length]. rewrite Nat.sub_0_r.
  change (Str.first (S (S (S (S (String.length (name +:+ ")s")))))) text)
    with (Str.first (String.length text) text).
  rewrite first_all. exact Hk.
Qed.

(** One token that is all of the text. *)
Lemma one_token self text c' spec :
  text <> "" ->
  rmatch (_regex self) 0 text (replicate (ngroups (_regex self)) None)
         (fun s' c' => Some (s', c')) = Some ("", c') ->
  matched_spec (_specs self) c' = Returns (spec, text) ->
  tokens (String.length text) self text
  = Yield (mkToken (Some (token_kind spec)) text
                   (subgroups c' (subgroup_range spec))
                   (0, String.length text)) Done.
Proof.
  intros Hne Hm Hs. unfold tokens.
  assert (Hn : exists n, String.length text = S n).
  { destruct text; [congruence|]. cbn [String.length]. eauto. }
  destruct Hn as [n Hn]. rewrite Hn at 1.
  rewrite (tokens_first_match self text "" c' spec text n Hne Hm Hs).
  cbn [String.length]. rewrite Nat.sub_0_r, tokens_loop_end. reflexivity.
Qed.

Lemma replace_python_token text tok (bindings : gmap string value) name v :
  _tokens text = Yield tok Done ->
  python_name_of tok = Some name ->
  bindings !! name = Some v ->
  replace text bindings = python_replacement tok v.
Proof.
  intros Htoks Hn Hb. unfold replace. rewrite Htoks. cbn [replace_loop].
  rewrite (handle_python_bound tok bindings name v Hn Hb).
  destruct (python_replacement tok v); cbn [with_text];
    [|reflexivity|reflexivity].
  cbn [app Str.join_empty]. rewrite str_app_empty_r. reflexivity.
Qed.

(** X17: A python-style placeholder whose name is bound, and nothing else:
    [replace] returns what [to_sql] returns for the value for [%(name)s],
    and the length of the value for [#%(name)s]. *)
Theorem python_placeholder_is_replaced
    (name : string) (bindings : gmap string value) v :
  name <> "" ->
  all_chars is_word name = true ->
  bindings !! name = Some v ->
  replace ("%(" +:+ name +:+ ")s") bindings = to_sql v
  /\ replace ("#%(" +:+ name +:+ ")s") bindings = length_text v.
Proof.
  intros Hne Hw Hb. split.
  - refine (eq_trans (replace_python_token _ _ bindings name v _ _ Hb) _);
      [ unfold _tokens; eapply one_token;
        [ discriminate
        | apply python_match; [exact Hne | exact Hw | reflexivity]
        | reflexivity ]
      | reflexivity
      | reflexivity ].
  - refine (eq_trans (replace_python_token _ _ bindings name v _ _ Hb) _);
      [ unfold _tokens; eapply one_token;
        [ discriminate
        | apply python_length_match; [exact Hne | exact Hw | reflexivity]
        | reflexivity ]
      | reflexivity
      | reflexivity ].
Qed.

End ReplaceMore.

(** ** The further properties at concrete statements *)

Module MoreWitnesses.

Import Re Lexer Encode Sqlbindarray Props Shapes EncodeMore LexerMore ReplaceMore.

Lemma to_sql_string_injective_witness :
  to_sql (VStr "it's") = to_sql (VStr "it's") /\ "it's" = "it's".
Proof.
  split; [reflexivity|].
  apply (to_sql_string_injective "it's" "it's"). reflexivity.
Defined.

Lemma group_specs_layout_witness :
  _group_specs _token_patterns !! 6
  = Some (mkGroupSpec 7 (8, 9) "python named parameter")
  /\ exists name p,
       _token_patterns !! 6 = Some (name, p)
       /\ name = "python named parameter"
       /\ 7 = ngroups (_combine_patterns (map snd (take 6 _token_patterns)))
       /\ (8, 9) = (7 + 1, 7 + 1 + ngroups p)
       /\ 9 <= ngroups (_combine_patterns (map snd _token_patterns)).
Proof.
  split; [vm_compute; reflexivity|].
  destruct (group_specs_layout _token_patterns 6
              (mkGroupSpec 7 (8, 9) "python named parameter"))
    as (name & p & H1 & H2 & H3 & H4 & H5);
    [vm_compute; reflexivity|].
  exists name, p. cbn in H2, H3, H4, H5.
  repeat split; auto.
Defined.

Lemma replace_without_bound_names_witness :
  forallb (fun t => negb (names_bound {[ "x" := VInt 1 ]} t))
    (yielded (_tokens "select :a, %(b)s from t")) = true
  /\ (replace "select :a, %(b)s from t" {[ "x" := VInt 1 ]}
      = Returns "select :a, %(b)s from t"
      \/ replace "select :a, %(b)s from t" {[ "x" := VInt 1 ]}
         = Raises MalformedPlaceholder).
Proof.
  split; [vm_compute; reflexivity|].
  apply (replace_without_bound_names "select :a, %(b)s from t").
  vm_compute. reflexivity.
Defined.

Lemma bound_prefix_placeholder_replaced_witness :
  replace "f(: /* c */ x)" {[ "x" := VStr "a" ]} = Returns "f('a')".
Proof.
  refine (eq_trans
    (bound_prefix_placeholder_replaced
       "f(: /* c */ x)" {[ "x" := VStr "a" ]}
       [mkToken (Some "word") "f" [] (0, 1);
        mkToken None "(" [] (1, 2)]
       (mkToken (Some "named parameter prefix") ":" [] (2, 3))
       [mkToken (Some "whitespace") " " [] (3, 4);
        mkToken (Some "block comment") "/* c */" [] (4, 11);
        mkToken (Some "whitespace") " " [] (11, 12);
        mkToken (Some "word") "x" [] (12, 13)]
       (Yield (mkToken None ")" [] (13, 14)) Done)
       ["f"; "("] [] "x" (VStr "a") _ _ _ _ _) _);
    vm_compute; reflexivity.
Defined.

Lemma bound_python_placeholder_replaced_witness :
  replace "a %(x)s" {[ "x" := VInt 5 ]} = Returns "a 5".
Proof.
  refine (eq_trans
    (bound_python_placeholder_replaced
       "a %(x)s" {[ "x" := VInt 5 ]}
       [mkToken (Some "word") "a" [] (0, 1);
        mkToken (Some "whitespace") " " [] (1, 2)]
       (mkToken (Some "python named parameter") "%(x)s" [Some "x"] (2, 7))
       Done ["a"] [" "] "x" (VInt 5) _ _ _ _) _);
    vm_compute; reflexivity.
Defined.

Lemma line_comment_is_kept_witness :
  no_newline " :x 'open" = true
  /\ replace "-- :x 'open" {[ "x" := VInt 1 ]} = Returns "-- :x 'open".
Proof.
  split; [reflexivity|].
  apply (proj1 (line_comment_is_kept " :x 'open" {[ "x" := VInt 1 ]} eq_refl)).
Defined.

Lemma unmentioned_binding_is_ignored_witness :
  replace "select :a" (<[ "b" := VInt 1 ]> {[ "a" := VInt 2 ]})
  = replace "select :a" {[ "a" := VInt 2 ]}.
Proof.
  apply (unmentioned_binding_is_ignored "select :a" {[ "a" := VInt 2 ]}
           "b" (VInt 1)).
  vm_compute. reflexivity.
Defined.

Lemma prefixed_word_is_replaced_witness :
  replace "@user_id" {[ "user_id" := VInt 7 ]} = Returns "7".
Proof.
  refine (eq_trans
    (prefixed_word_is_replaced "@" "user_id" {[ "user_id" := VInt 7 ]}
       (VInt 7) _ _ _ _) _).
  - right. left. reflexivity.
  - discriminate.
  - reflexivity.
  - vm_compute. reflexivity.
  - vm_compute. reflexivity.
Defined.

Lemma prefixed_quoted_identifier_is_replaced_witness :
  replace ("#:" +:+ dquoted "my list")
    {[ "my list" := VList [VInt 1; VInt 2] ]} = Returns "2".
Proof.
  refine (eq_trans
    (prefixed_quoted_identifier_is_replaced "#:" "my list"
       {[ "my list" := VList [VInt 1; VInt 2] ]}
       (VList [VInt 1; VInt 2]) _ _ _) _).
  - right. right. left. reflexivity.
  - reflexivity.
  - vm_compute. reflexivity.
  - vm_compute. reflexivity.
Defined.

Lemma python_placeholder_is_replaced_witness :
  replace "%(ids)s" {[ "ids" := VList [VInt 1; VInt 2] ]} = Returns "(1, 2)"
  /\ replace "#%(ids)s" {[ "ids" := VList [VInt 1; VInt 2] ]} = Returns "2".
Proof.
  destruct (python_placeholder_is_replaced "ids"
              {[ "ids" := VList [VInt 1; VInt 2] ]}
              (VList [VInt 1; VInt 2])) as [H1 H2].
  - discriminate.
  - reflexivity.
  - vm_compute. reflexivity.
  - split.
    + exact (eq_trans H1 eq_refl).
    + exact (eq_trans H2 eq_refl).
Defined.

End MoreWitnesses.
